(** * The wavefront path-trace integrator: host-side scheduling

    A shallow embedding of [src/path_trace_integrator.cpp].  The integrator
    is a host object that owns device buffers and compute kernels, binds
    kernel arguments and enqueues work on one in-order command stream.  The
    embedding keeps the three layers of the source apart:

    - the host object ([PathTraceIntegrator]): sizes and the argument table of
      each kernel, threaded through a small state-and-output monad ([Host]);
    - the command stream: the list of [command]s a method enqueues, each kernel
      dispatch carrying the argument table it was enqueued with;
    - the device: buffer contents, changed by running the command stream.

    Unsigned 32-bit quantities are integers with the wrap-around written
    out ([u32]); single-precision floats are IEEE binary32 ([SpecFloat]). *)

From Stdlib Require Import ZArith Lia Floats.SpecFloat.
From Stdlib Require Reals Lra.
From stdpp Require Import base numbers list gmap strings.

Local Open Scope Z_scope.

(** ** Machine arithmetic *)

(** [std::uint32_t] arithmetic: results are taken modulo 2^32. *)
Definition u32 (z : Z) : Z := z mod 2 ^ 32.

(** IEEE binary32, the [float] of the sources. *)
Definition float : Type := spec_float.

Module F32.
Definition prec : Z := 24.
Definition emax : Z := 128.
Definition zero : float := S754_zero false.
Definition of_Z (z : Z) : float := binary_normalize prec emax z 0 false.
Definition add : float -> float -> float := SFadd prec emax.
Definition sub : float -> float -> float := SFsub prec emax.
Definition mul : float -> float -> float := SFmul prec emax.
Definition div : float -> float -> float := SFdiv prec emax.
Definition sqrt : float -> float := SFsqrt prec emax.
Definition eqb : float -> float -> bool := SFeqb.
End F32.

Record float3 : Type := mk_float3 { fx : float; fy : float; fz : float }.

(** Modelled from the spec: [vectors.hpp] (the [float3] helpers [Cross] and
    [Normalize]) is not among the sources.  The spec names the operations
    ("right-from-front×up", "normalize"); they are the usual cross product
    and division by the Euclidean length, in binary32. *)
Definition Cross (a b : float3) : float3 :=
  mk_float3
    (F32.sub (F32.mul (fy a) (fz b)) (F32.mul (fz a) (fy b)))
    (F32.sub (F32.mul (fz a) (fx b)) (F32.mul (fx a) (fz b)))
    (F32.sub (F32.mul (fx a) (fy b)) (F32.mul (fy a) (fx b))).

(** The dot product and the Euclidean length in binary32, for [Normalize]
    and for checking a basis. *)
Definition Dot (a b : float3) : float :=
  F32.add (F32.add (F32.mul (fx a) (fx b)) (F32.mul (fy a) (fy b)))
          (F32.mul (fz a) (fz b)).

Definition Length (a : float3) : float := F32.sqrt (Dot a a).

(** Modelled from the spec: [float3::Normalize] of [vectors.hpp], not among
    the sources; the spec's "normalize": each component divided by the
    length. *)
Definition Normalize (a : float3) : float3 :=
  let len := Length a in
  mk_float3 (F32.div (fx a) len) (F32.div (fy a) len) (F32.div (fz a) len).

(** ** The camera basis, over any arithmetic *)

(** The scalar arithmetic the vector helpers are written over, and the
    helpers over any such arithmetic: the formulas of [Cross], [Dot],
    [Length] and [Normalize], with the operations left open. *)
Record arithmetic (T : Type) : Type := mk_arithmetic {
  a_add : T -> T -> T;
  a_sub : T -> T -> T;
  a_mul : T -> T -> T;
  a_div : T -> T -> T;
  a_sqrt : T -> T
}.

Arguments mk_arithmetic {T}.
Arguments a_add {T}.
Arguments a_sub {T}.
Arguments a_mul {T}.
Arguments a_div {T}.
Arguments a_sqrt {T}.

Record vec3 (T : Type) : Type := mk_vec3 { vx : T; vy : T; vz : T }.

Arguments mk_vec3 {T}.
Arguments vx {T}.
Arguments vy {T}.
Arguments vz {T}.

Definition cross_over {T} (A : arithmetic T) (a b : vec3 T) : vec3 T :=
  mk_vec3
    (a_sub A (a_mul A (vy a) (vz b)) (a_mul A (vz a) (vy b)))
    (a_sub A (a_mul A (vz a) (vx b)) (a_mul A (vx a) (vz b)))
    (a_sub A (a_mul A (vx a) (vy b)) (a_mul A (vy a) (vx b))).

Definition dot_over {T} (A : arithmetic T) (a b : vec3 T) : T :=
  a_add A (a_add A (a_mul A (vx a) (vx b)) (a_mul A (vy a) (vy b)))
          (a_mul A (vz a) (vz b)).

Definition normalize_over {T} (A : arithmetic T) (a : vec3 T) : vec3 T :=
  let len := a_sqrt A (dot_over A a a) in
  mk_vec3 (a_div A (vx a) len) (a_div A (vy a) len) (a_div A (vz a) len).

(** The two vectors [SetCameraData] derives, over any arithmetic. *)
Definition right_over {T} (A : arithmetic T) (front up : vec3 T) : vec3 T :=
  normalize_over A (cross_over A front up).

Definition up_over {T} (A : arithmetic T) (front up : vec3 T) : vec3 T :=
  cross_over A (right_over A front up) front.

(** The arithmetic of the code: IEEE binary32. *)
Definition binary32 : arithmetic float :=
  mk_arithmetic F32.add F32.sub F32.mul F32.div F32.sqrt.

Definition vec_of (a : float3) : vec3 float := mk_vec3 (fx a) (fy a) (fz a).

(** The same helpers in exact arithmetic, where orthonormality is stated:
    binary32 rounds, so it is the real-valued formulas that can be
    orthonormal. *)
Module Exact.
Import Stdlib.Reals.Reals.
Local Open Scope R_scope.

(** Exact arithmetic: the real numbers. *)
Definition reals : arithmetic R := mk_arithmetic Rplus Rminus Rmult Rdiv sqrt.

Definition dot (a b : vec3 R) : R := dot_over reals a b.

Definition null : vec3 R := mk_vec3 0 0 0.

Definition unit_length (a : vec3 R) : Prop := dot a a = 1.

(** Neither orthogonal: the dot product is not zero. *)
Definition oblique (a b : vec3 R) : Prop := dot a b <> 0.

(** Three vectors of unit length, pairwise orthogonal. *)
Definition orthonormal (a b c : vec3 R) : Prop :=
  dot a a = 1 /\ dot b b = 1 /\ dot c c = 1
  /\ dot a b = 0 /\ dot a c = 0 /\ dot b c = 0.

(** A unit front vector and an up vector neither parallel nor orthogonal to
    it. *)
Definition front_x : vec3 R := mk_vec3 1 0 0.

Definition up_skew : vec3 R := mk_vec3 1 1 1.

End Exact.

(** ** Device objects *)

(** The memory objects the integrator refers to.  The members
    [rays_buffer_], [pixel_indices_buffer_] and [ray_counter_buffer_] are
    arrays of two, addressed by the index the code computes; the scene's
    buffers are handles owned by the scene. *)
Inductive buffer : Type :=
| radiance_buffer_
| rays_buffer_ (i : Z)
| pixel_indices_buffer_ (i : Z)
| ray_counter_buffer_ (i : Z)
| hits_buffer_
| throughputs_buffer_
| sample_counter_buffer_
| sampler_sobol_buffer_
| sampler_scrambling_tile_buffer_
| sampler_ranking_tile_buffer_
| output_image_
| scene_mem (handle : Z).

#[global] Instance buffer_eq_dec : EqDecision buffer.
Proof. solve_decision. Defined.

Definition buffer_encode (b : buffer) : nat * Z :=
  match b with
  | radiance_buffer_ => (0%nat, 0)
  | rays_buffer_ i => (1%nat, i)
  | pixel_indices_buffer_ i => (2%nat, i)
  | ray_counter_buffer_ i => (3%nat, i)
  | hits_buffer_ => (4%nat, 0)
  | throughputs_buffer_ => (5%nat, 0)
  | sample_counter_buffer_ => (6%nat, 0)
  | sampler_sobol_buffer_ => (7%nat, 0)
  | sampler_scrambling_tile_buffer_ => (8%nat, 0)
  | sampler_ranking_tile_buffer_ => (9%nat, 0)
  | output_image_ => (10%nat, 0)
  | scene_mem h => (11%nat, h)
  end.

Definition buffer_decode (p : nat * Z) : buffer :=
  match p with
  | (0%nat, _) => radiance_buffer_
  | (1%nat, i) => rays_buffer_ i
  | (2%nat, i) => pixel_indices_buffer_ i
  | (3%nat, i) => ray_counter_buffer_ i
  | (4%nat, _) => hits_buffer_
  | (5%nat, _) => throughputs_buffer_
  | (6%nat, _) => sample_counter_buffer_
  | (7%nat, _) => sampler_sobol_buffer_
  | (8%nat, _) => sampler_scrambling_tile_buffer_
  | (9%nat, _) => sampler_ranking_tile_buffer_
  | (10%nat, _) => output_image_
  | (_, h) => scene_mem h
  end.

#[global] Instance buffer_countable : Countable buffer.
Proof.
  apply (inj_countable' buffer_encode buffer_decode).
  intros []; reflexivity.
Defined.

(** The OpenCL programs the constructor loads, one per file of
    [src/Kernels/]. *)
Inductive kernel_program : Type :=
| reset_radiance_cl
| raygeneration_cl
| miss_cl
| hit_surface_cl
| clear_counter_cl
| increment_counter_cl
| resolve_radiance_cl.

#[global] Instance kernel_program_eq_dec : EqDecision kernel_program.
Proof. solve_decision. Defined.

Definition kernel_file (p : kernel_program) : string :=
  match p with
  | reset_radiance_cl => "src/Kernels/reset_radiance.cl"
  | raygeneration_cl => "src/Kernels/raygeneration.cl"
  | miss_cl => "src/Kernels/miss.cl"
  | hit_surface_cl => "src/Kernels/hit_surface.cl"
  | clear_counter_cl => "src/Kernels/clear_counter.cl"
  | increment_counter_cl => "src/Kernels/increment_counter.cl"
  | resolve_radiance_cl => "src/Kernels/resolve_radiance.cl"
  end.

(** A value passed to [SetArgument]: the bytes copied into the kernel's
    argument slot. *)
Inductive arg : Type :=
| ArgUInt (v : Z)
| ArgFloat (v : float)
| ArgFloat3 (v : float3)
| ArgMem (b : buffer).

(** A [CLKernel]: its program and its table of bound arguments. *)
Record CLKernel : Type := mk_kernel {
  program : kernel_program;
  arguments : gmap nat arg
}.

(** [CLKernel::SetArgument(index, data, size)]: the slot takes the value. *)
Definition SetArgument (index : nat) (data : arg) (k : CLKernel) : CLKernel :=
  {| program := program k; arguments := <[index := data]> (arguments k) |}.

(** The argument slots, as the enumerations of namespace [args]. *)
Module args.
Module Raygen.
Definition kWidth : nat := 0.
Definition kHeight : nat := 1.
Definition kCameraPos : nat := 2.
Definition kCameraFront : nat := 3.
Definition kCameraUp : nat := 4.
Definition kFrameCount : nat := 5.
Definition kFrameSeed : nat := 6.
Definition kAperture : nat := 7.
Definition kFocusDistance : nat := 8.
Definition kRayBuffer : nat := 9.
Definition kRayCounterBuffer : nat := 10.
Definition kPixelIndicesBuffer : nat := 11.
Definition kThroughputsBuffer : nat := 12.
End Raygen.
Module Miss.
Definition kRayBuffer : nat := 0.
Definition kRayCounterBuffer : nat := 1.
Definition kHitsBuffer : nat := 2.
Definition kPixelIndicesBuffer : nat := 3.
Definition kThroughputsBuffer : nat := 4.
Definition kIblTextureBuffer : nat := 5.
Definition kRadianceBuffer : nat := 6.
End Miss.
Module HitSurface.
Definition kIncomingRayBuffer : nat := 0.
Definition kIncomingRayCounterBuffer : nat := 1.
Definition kIncomingPixelIndicesBuffer : nat := 2.
Definition kHitsBuffer : nat := 3.
Definition kTrianglesBuffer : nat := 4.
Definition kMaterialsBuffer : nat := 5.
Definition kBounce : nat := 6.
Definition kWidth : nat := 7.
Definition kHeight : nat := 8.
Definition kSampleCounterBuffer : nat := 9.
Definition kSobolBuffer : nat := 10.
Definition kScramblingTileBuffer : nat := 11.
Definition kRankingTileBuffer : nat := 12.
Definition kThroughputsBuffer : nat := 13.
Definition kOutgoingRayBuffer : nat := 14.
Definition kOutgoingRayCounterBuffer : nat := 15.
Definition kOutgoingPixelIndicesBuffer : nat := 16.
Definition kRadianceBuffer : nat := 17.
End HitSurface.
Module Resolve.
Definition kWidth : nat := 0.
Definition kHeight : nat := 1.
Definition kRadianceBuffer : nat := 2.
Definition kSampleCounterBuffer : nat := 3.
Definition kResolvedTexture : nat := 4.
End Resolve.
End args.

(** ** The command stream *)

(** What the integrator asks of its collaborators: [CLContext]
    ([ExecuteKernel], [AcquireGLObject], [Finish], [ReleaseGLObject]) and the
    acceleration structure ([IntersectRays]).  A dispatch records the kernel
    as it is when enqueued, arguments included. *)
Inductive command : Type :=
| ExecuteKernel (k : CLKernel) (work_size : Z)
| AccIntersectRays (rays ray_counter : buffer) (max_num_rays : Z) (hits : buffer)
| AcquireGLObject (mem : buffer)
| Finish
| ReleaseGLObject (mem : buffer).

(** ** The host object *)

Record PathTraceIntegrator : Type := mk_integrator {
  width_ : Z;
  height_ : Z;
  max_bounces_ : Z;
  reset_kernel_ : CLKernel;
  raygen_kernel_ : CLKernel;
  miss_kernel_ : CLKernel;
  hit_surface_kernel_ : CLKernel;
  clear_counter_kernel_ : CLKernel;
  increment_counter_kernel_ : CLKernel;
  resolve_kernel_ : CLKernel
}.

(** The process-wide generator behind [rand()]: the values it will return,
    and how many have been drawn. *)
Record process : Type := mk_process {
  rand_values : nat -> Z;
  rand_calls : nat
}.

Record host : Type := mk_host {
  this : PathTraceIntegrator;
  libc : process
}.

(** The collaborators' data, as the getters the integrator calls. *)
Record Camera : Type := mk_camera {
  GetOrigin : float3;
  GetFrontVector : float3;
  GetUpVector : float3;
  GetFrameCount : Z;
  GetAperture : float;
  GetFocusDistance : float
}.

(** The scene hands out the [cl_mem] handles of buffers it owns. *)
Record Scene : Type := mk_scene {
  GetTriangleBuffer : Z;
  GetMaterialBuffer : Z;
  GetEnvTextureBuffer : Z
}.

(** ** The host monad: state and enqueued commands *)

Definition Host (A : Type) : Type := host -> A * host * list command.

Definition ret {A} (a : A) : Host A := fun h => (a, h, []).

Definition bind {A B} (m : Host A) (f : A -> Host B) : Host B :=
  fun h =>
    let '(a, h1, out1) := m h in
    let '(b, h2, out2) := f a h1 in
    (b, h2, out1 ++ out2).

Notation "'let*' x := m 'in' k" := (bind m (fun x => k))
  (at level 10, x name, m at level 100, k at level 200, only parsing).
Notation "m ;; k" := (bind m (fun _ => k))
  (at level 100, k at level 200, right associativity, only parsing).

Definition get_this : Host PathTraceIntegrator := fun h => (this h, h, []).

Definition modify_this (f : PathTraceIntegrator -> PathTraceIntegrator) : Host unit :=
  fun h => (tt, {| this := f (this h); libc := libc h |}, []).

Definition enqueue (c : command) : Host unit := fun h => (tt, h, [c]).

(** [rand()]: the next value of the generator. *)
Definition rand : Host Z :=
  fun h =>
    let p := libc h in
    (rand_values p (rand_calls p),
     {| this := this h;
        libc := {| rand_values := rand_values p; rand_calls := S (rand_calls p) |} |},
     []).

(** The state a method leaves and the commands it enqueued. *)
Definition state_after {A} (m : Host A) (h : host) : host := snd (fst (m h)).
Definition enqueued {A} (m : Host A) (h : host) : list command := snd (m h).

(** Member updates. *)
Definition with_raygen_kernel (f : CLKernel -> CLKernel) (it : PathTraceIntegrator) :=
  mk_integrator (width_ it) (height_ it) (max_bounces_ it)
    (reset_kernel_ it) (f (raygen_kernel_ it)) (miss_kernel_ it) (hit_surface_kernel_ it)
    (clear_counter_kernel_ it) (increment_counter_kernel_ it) (resolve_kernel_ it).

Definition with_miss_kernel (f : CLKernel -> CLKernel) (it : PathTraceIntegrator) :=
  mk_integrator (width_ it) (height_ it) (max_bounces_ it)
    (reset_kernel_ it) (raygen_kernel_ it) (f (miss_kernel_ it)) (hit_surface_kernel_ it)
    (clear_counter_kernel_ it) (increment_counter_kernel_ it) (resolve_kernel_ it).

Definition with_hit_surface_kernel (f : CLKernel -> CLKernel) (it : PathTraceIntegrator) :=
  mk_integrator (width_ it) (height_ it) (max_bounces_ it)
    (reset_kernel_ it) (raygen_kernel_ it) (miss_kernel_ it) (f (hit_surface_kernel_ it))
    (clear_counter_kernel_ it) (increment_counter_kernel_ it) (resolve_kernel_ it).

Definition with_clear_counter_kernel (f : CLKernel -> CLKernel) (it : PathTraceIntegrator) :=
  mk_integrator (width_ it) (height_ it) (max_bounces_ it)
    (reset_kernel_ it) (raygen_kernel_ it) (miss_kernel_ it) (hit_surface_kernel_ it)
    (f (clear_counter_kernel_ it)) (increment_counter_kernel_ it) (resolve_kernel_ it).

Definition with_increment_counter_kernel (f : CLKernel -> CLKernel) (it : PathTraceIntegrator) :=
  mk_integrator (width_ it) (height_ it) (max_bounces_ it)
    (reset_kernel_ it) (raygen_kernel_ it) (miss_kernel_ it) (hit_surface_kernel_ it)
    (clear_counter_kernel_ it) (f (increment_counter_kernel_ it)) (resolve_kernel_ it).

(** [kernel->SetArgument(...)] on a member, and
    [cl_context_.ExecuteKernel] of that member. *)
Definition set_arg (member : (CLKernel -> CLKernel) -> PathTraceIntegrator -> PathTraceIntegrator)
    (index : nat) (data : arg) : Host unit :=
  modify_this (member (SetArgument index data)).

Definition execute (member : PathTraceIntegrator -> CLKernel)
    (work_size : PathTraceIntegrator -> Z) : Host unit :=
  let* it := get_this in enqueue (ExecuteKernel (member it) (work_size it)).

(** [width_ * height_], a product of two [std::uint32_t]. *)
Definition num_pixels (it : PathTraceIntegrator) : Z := u32 (width_ it * height_ it).

(** ** The methods of [PathTraceIntegrator] *)

Definition Reset : Host unit :=
  (* Reset frame index *)
  set_arg with_clear_counter_kernel 0 (ArgMem sample_counter_buffer_);;
  execute clear_counter_kernel_ (fun _ => 1);;
  (* Reset radiance buffer *)
  execute reset_kernel_ num_pixels.

Definition SetCameraData (camera : Camera) : Host unit :=
  let origin := GetOrigin camera in
  let front := GetFrontVector camera in
  let right := Normalize (Cross front (GetUpVector camera)) in
  let up := Cross right front in
  set_arg with_raygen_kernel args.Raygen.kCameraPos (ArgFloat3 origin);;
  set_arg with_raygen_kernel args.Raygen.kCameraFront (ArgFloat3 front);;
  set_arg with_raygen_kernel args.Raygen.kCameraUp (ArgFloat3 up);;
  let frame_count := GetFrameCount camera in
  set_arg with_raygen_kernel args.Raygen.kFrameCount (ArgUInt frame_count);;
  let* seed := rand in
  set_arg with_raygen_kernel args.Raygen.kFrameSeed (ArgUInt (u32 seed));;
  let aperture := GetAperture camera in
  let focus_distance := GetFocusDistance camera in
  set_arg with_raygen_kernel args.Raygen.kAperture (ArgFloat aperture);;
  set_arg with_raygen_kernel args.Raygen.kFocusDistance (ArgFloat focus_distance).

Definition SetSceneData (scene : Scene) : Host unit :=
  let triangle_buffer := GetTriangleBuffer scene in
  let material_buffer := GetMaterialBuffer scene in
  let env_texture := GetEnvTextureBuffer scene in
  set_arg with_hit_surface_kernel args.HitSurface.kTrianglesBuffer
    (ArgMem (scene_mem triangle_buffer));;
  set_arg with_hit_surface_kernel args.HitSurface.kMaterialsBuffer
    (ArgMem (scene_mem material_buffer));;
  set_arg with_miss_kernel args.Miss.kIblTextureBuffer (ArgMem (scene_mem env_texture)).

Definition AdvanceSampleCount : Host unit :=
  set_arg with_increment_counter_kernel 0 (ArgMem sample_counter_buffer_);;
  execute increment_counter_kernel_ (fun _ => 1).

Definition GenerateRays : Host unit :=
  execute raygen_kernel_ num_pixels.

(** The two stream indices of a bounce: [bounce & 1] and
    [(bounce + 1) & 1], the sum taken in [std::uint32_t]. *)
Definition incoming_idx (bounce : Z) : Z := Z.land bounce 1.
Definition outgoing_idx (bounce : Z) : Z := Z.land (u32 (bounce + 1)) 1.

Definition IntersectRays (bounce : Z) : Host unit :=
  let* it := get_this in
  let max_num_rays := num_pixels it in
  let incoming_idx := incoming_idx bounce in
  enqueue (AccIntersectRays (rays_buffer_ incoming_idx) (ray_counter_buffer_ incoming_idx)
             max_num_rays hits_buffer_).

Definition ShadeMissedRays (bounce : Z) : Host unit :=
  let incoming_idx := incoming_idx bounce in
  set_arg with_miss_kernel args.Miss.kRayBuffer (ArgMem (rays_buffer_ incoming_idx));;
  set_arg with_miss_kernel args.Miss.kPixelIndicesBuffer
    (ArgMem (pixel_indices_buffer_ incoming_idx));;
  set_arg with_miss_kernel args.Miss.kRayCounterBuffer
    (ArgMem (ray_counter_buffer_ incoming_idx));;
  execute miss_kernel_ num_pixels.

Definition ShadeSurfaceHits (bounce : Z) : Host unit :=
  let incoming_idx := incoming_idx bounce in
  let outgoing_idx := outgoing_idx bounce in
  (* Incoming rays *)
  set_arg with_hit_surface_kernel args.HitSurface.kIncomingRayBuffer
    (ArgMem (rays_buffer_ incoming_idx));;
  set_arg with_hit_surface_kernel args.HitSurface.kIncomingPixelIndicesBuffer
    (ArgMem (pixel_indices_buffer_ incoming_idx));;
  set_arg with_hit_surface_kernel args.HitSurface.kIncomingRayCounterBuffer
    (ArgMem (ray_counter_buffer_ incoming_idx));;
  (* Outgoing rays *)
  set_arg with_hit_surface_kernel args.HitSurface.kOutgoingRayBuffer
    (ArgMem (rays_buffer_ outgoing_idx));;
  set_arg with_hit_surface_kernel args.HitSurface.kOutgoingPixelIndicesBuffer
    (ArgMem (pixel_indices_buffer_ outgoing_idx));;
  set_arg with_hit_surface_kernel args.HitSurface.kOutgoingRayCounterBuffer
    (ArgMem (ray_counter_buffer_ outgoing_idx));;
  (* Other data *)
  set_arg with_hit_surface_kernel args.HitSurface.kBounce (ArgUInt bounce);;
  execute hit_surface_kernel_ num_pixels.

Definition ClearOutgoingRayCounter (bounce : Z) : Host unit :=
  let outgoing_idx := outgoing_idx bounce in
  set_arg with_clear_counter_kernel 0 (ArgMem (ray_counter_buffer_ outgoing_idx));;
  execute clear_counter_kernel_ (fun _ => 1).

Definition ResolveRadiance : Host unit :=
  (* Copy radiance to the interop image *)
  enqueue (AcquireGLObject output_image_);;
  execute resolve_kernel_ num_pixels;;
  enqueue Finish;;
  enqueue (ReleaseGLObject output_image_).

(** The body of the bounce loop, and the loop
    [for (bounce = 0; bounce < max_bounces_; ++bounce)] continued from
    [bounce].  The counter is a [std::uint32_t]; [fuel] bounds the number of
    iterations still allowed. *)
Definition bounce_body (bounce : Z) : Host unit :=
  IntersectRays bounce;;
  ShadeMissedRays bounce;;
  ClearOutgoingRayCounter bounce;;
  ShadeSurfaceHits bounce.

Fixpoint bounce_loop (fuel : nat) (bounce : Z) : Host unit :=
  match fuel with
  | O => ret tt
  | S fuel' =>
      let* it := get_this in
      if bounce <? max_bounces_ it
      then bounce_body bounce;; bounce_loop fuel' (u32 (bounce + 1))
      else ret tt
  end.

(** [Integrate] with an explicit iteration budget for its loop, and
    [Integrate] itself: the loop runs at most [max_bounces_] times
    ([bounce_loop_fuel] below shows a larger budget changes nothing). *)
Definition Integrate_with (fuel : nat) : Host unit :=
  GenerateRays;;
  bounce_loop fuel 0;;
  AdvanceSampleCount;;
  ResolveRadiance.

Definition Integrate : Host unit :=
  let* it := get_this in Integrate_with (Z.to_nat (max_bounces_ it)).

(** ** Construction *)

(** A thrown [CLException(message, status)]. *)
Inductive exn : Type := CLException (message : string) (status : Z).

Definition CL_SUCCESS : Z := 0.

(** What the OpenCL platform answers while the integrator is built: the
    status each buffer or image creation returns through its [&status]
    out-parameter, and the exception, if any, thrown while a [CLKernel] is
    built from its source file. *)
Record platform : Type := mk_platform {
  create_status : buffer -> Z;
  kernel_failure : kernel_program -> option exn
}.

(** Loading the kernels in the order of the constructor: the first failure
    is thrown. *)
Fixpoint load_kernels (cl : platform) (ps : list kernel_program) : option exn :=
  match ps with
  | [] => None
  | p :: ps' =>
      match kernel_failure cl p with
      | Some e => Some e
      | None => load_kernels cl ps'
      end
  end.

Definition new_kernel (p : kernel_program) : CLKernel :=
  {| program := p; arguments := ∅ |}.

(** The constructor.  [max_bounces] is the value the class declaration
    gives [max_bounces_]; the result is the thrown exception, or the object
    and the commands enqueued (by the closing [Reset()]). *)
Definition PathTraceIntegrator_new (cl : platform) (width height max_bounces : Z)
    (p : process) : exn + (host * list command) :=
  (* Create buffers and images *)
  let status := create_status cl radiance_buffer_ in
  let status :=
    fold_left (fun _ i =>
      let status := create_status cl (rays_buffer_ i) in
      let status := create_status cl (pixel_indices_buffer_ i) in
      create_status cl (ray_counter_buffer_ i)) [0; 1] status in
  let status := create_status cl hits_buffer_ in
  let status := create_status cl throughputs_buffer_ in
  if negb (status =? CL_SUCCESS)
  then inl (CLException "Failed to create radiance buffer" status)
  else
  let status := create_status cl sample_counter_buffer_ in
  (* Sampler buffers *)
  let status := create_status cl sampler_sobol_buffer_ in
  let status := create_status cl sampler_scrambling_tile_buffer_ in
  let status := create_status cl sampler_ranking_tile_buffer_ in
  let status := create_status cl output_image_ in
  if negb (status =? CL_SUCCESS)
  then inl (CLException "Failed to create output image" status)
  else
  (* Create kernels *)
  match load_kernels cl
          [reset_radiance_cl; raygeneration_cl; miss_cl; hit_surface_cl;
           clear_counter_cl; increment_counter_cl; resolve_radiance_cl] with
  | Some e => inl e
  | None =>
      let w := ArgUInt width in
      let h := ArgUInt height in
      (* Setup kernels *)
      let reset_kernel :=
        SetArgument 2 (ArgMem radiance_buffer_)
          (SetArgument 1 h (SetArgument 0 w (new_kernel reset_radiance_cl))) in
      let raygen_kernel :=
        SetArgument args.Raygen.kThroughputsBuffer (ArgMem throughputs_buffer_)
          (SetArgument args.Raygen.kPixelIndicesBuffer (ArgMem (pixel_indices_buffer_ 0))
          (SetArgument args.Raygen.kRayCounterBuffer (ArgMem (ray_counter_buffer_ 0))
          (SetArgument args.Raygen.kRayBuffer (ArgMem (rays_buffer_ 0))
          (SetArgument args.Raygen.kHeight h
          (SetArgument args.Raygen.kWidth w (new_kernel raygeneration_cl)))))) in
      let miss_kernel :=
        SetArgument args.Miss.kRadianceBuffer (ArgMem radiance_buffer_)
          (SetArgument args.Miss.kThroughputsBuffer (ArgMem throughputs_buffer_)
          (SetArgument args.Miss.kHitsBuffer (ArgMem hits_buffer_) (new_kernel miss_cl))) in
      let hit_surface_kernel :=
        SetArgument args.HitSurface.kRankingTileBuffer (ArgMem sampler_ranking_tile_buffer_)
          (SetArgument args.HitSurface.kScramblingTileBuffer
             (ArgMem sampler_scrambling_tile_buffer_)
          (SetArgument args.HitSurface.kSobolBuffer (ArgMem sampler_sobol_buffer_)
          (SetArgument args.HitSurface.kSampleCounterBuffer (ArgMem sample_counter_buffer_)
          (SetArgument args.HitSurface.kHeight h
          (SetArgument args.HitSurface.kWidth w
          (SetArgument args.HitSurface.kRadianceBuffer (ArgMem radiance_buffer_)
          (SetArgument args.HitSurface.kThroughputsBuffer (ArgMem throughputs_buffer_)
          (SetArgument args.HitSurface.kHitsBuffer (ArgMem hits_buffer_)
             (new_kernel hit_surface_cl))))))))) in
      let resolve_kernel :=
        SetArgument args.Resolve.kResolvedTexture (ArgMem output_image_)
          (SetArgument args.Resolve.kRadianceBuffer (ArgMem radiance_buffer_)
          (SetArgument args.Resolve.kSampleCounterBuffer (ArgMem sample_counter_buffer_)
          (SetArgument args.Resolve.kHeight h
          (SetArgument args.Resolve.kWidth w (new_kernel resolve_radiance_cl))))) in
      let it :=
        mk_integrator width height max_bounces
          reset_kernel raygen_kernel miss_kernel hit_surface_kernel
          (new_kernel clear_counter_cl) (new_kernel increment_counter_cl)
          resolve_kernel in
      (* Do not forget to reset frame index *)
      let '(_, h', out) := Reset {| this := it; libc := p |} in
      inr (h', out)
  end.

(** The stage methods of one frame, as invocations, and the schedule of a
    frame of [m] bounces. *)
Inductive stage_call : Type :=
| SGenerateRays
| SIntersectRays (bounce : Z)
| SShadeMissedRays (bounce : Z)
| SClearOutgoingRayCounter (bounce : Z)
| SShadeSurfaceHits (bounce : Z)
| SAdvanceSampleCount
| SResolveRadiance.

Definition invoke (s : stage_call) : Host unit :=
  match s with
  | SGenerateRays => GenerateRays
  | SIntersectRays b => IntersectRays b
  | SShadeMissedRays b => ShadeMissedRays b
  | SClearOutgoingRayCounter b => ClearOutgoingRayCounter b
  | SShadeSurfaceHits b => ShadeSurfaceHits b
  | SAdvanceSampleCount => AdvanceSampleCount
  | SResolveRadiance => ResolveRadiance
  end.

Fixpoint invoke_all (ss : list stage_call) : Host unit :=
  match ss with
  | [] => ret tt
  | s :: ss' => invoke s;; invoke_all ss'
  end.

Definition bounce_calls (b : Z) : list stage_call :=
  [SIntersectRays b; SShadeMissedRays b; SClearOutgoingRayCounter b; SShadeSurfaceHits b].

(** The bounce indices [first, first + 1, ..., first + n - 1]. *)
Definition bounces_from (first : Z) (n : nat) : list Z :=
  map (fun i => first + Z.of_nat i) (seq 0 n).

Definition frame_schedule (m : Z) : list stage_call :=
  SGenerateRays :: flat_map bounce_calls (bounces_from 0 (Z.to_nat m))
    ++ [SAdvanceSampleCount; SResolveRadiance].

(** The calls a client can make on a built integrator: the four entry
    points and, should the class expose them, the stage methods one by
    one. *)
Inductive call : Type :=
| CallReset
| CallSetCameraData (camera : Camera)
| CallSetSceneData (scene : Scene)
| CallIntegrate
| CallStage (s : stage_call).

Definition perform (c : call) : Host unit :=
  match c with
  | CallReset => Reset
  | CallSetCameraData camera => SetCameraData camera
  | CallSetSceneData scene => SetSceneData scene
  | CallIntegrate => Integrate
  | CallStage s => invoke s
  end.

Fixpoint perform_all (cs : list call) : Host unit :=
  match cs with
  | [] => ret tt
  | c :: cs' => perform c;; perform_all cs'
  end.

(** The states an integrator can be in: built by the constructor, then used
    through its public interface. *)
Inductive reachable : host -> Prop :=
| reachable_new cl width height max_bounces p h out :
    0 <= max_bounces < 2 ^ 32 ->
    PathTraceIntegrator_new cl width height max_bounces p = inr (h, out) ->
    reachable h
| reachable_call c h :
    reachable h -> reachable (state_after (perform c) h).

(** What a command is, leaving its operands out. *)
Inductive operation : Type :=
| OpKernel (p : kernel_program)
| OpIntersect
| OpAcquire
| OpFinish
| OpRelease.

Definition operation_of (c : command) : operation :=
  match c with
  | ExecuteKernel k _ => OpKernel (program k)
  | AccIntersectRays _ _ _ _ => OpIntersect
  | AcquireGLObject _ => OpAcquire
  | Finish => OpFinish
  | ReleaseGLObject _ => OpRelease
  end.

(** ** The device *)

(** Device memory, by buffer and entry: a 32-bit unsigned word (the
    counters) or a [float4] (the radiance accumulator).  Entries of the other
    buffers are written only by stages whose code is out of scope. *)
Inductive cell : Type :=
| CUInt (n : Z)
| CFloat4 (x y z w : float).

Definition float4_zero : cell := CFloat4 F32.zero F32.zero F32.zero F32.zero.

Abbreviation device := (gmap (buffer * nat) cell).

(** Modelled from the spec: [src/Kernels/clear_counter.cl] is not among the
    sources.  The spec: the stage "zeroes the counter" bound to it. *)
Definition run_clear_counter (k : CLKernel) (work_size : Z) (d : device) : device :=
  match arguments k !! 0%nat with
  | Some (ArgMem b) => if 0 <? work_size then <[(b, 0%nat) := CUInt 0]> d else d
  | _ => d
  end.

(** Modelled from the spec: [src/Kernels/increment_counter.cl] is not among
    the sources.  The spec: "atomically increments SampleCounter by one", per
    work-item. *)
Definition run_increment_counter (k : CLKernel) (work_size : Z) (d : device) : device :=
  match arguments k !! 0%nat with
  | Some (ArgMem b) =>
      match d !! (b, 0%nat) with
      | Some (CUInt n) => <[(b, 0%nat) := CUInt (u32 (n + Z.max 0 work_size))]> d
      | _ => d
      end
  | _ => d
  end.

(** Modelled from the spec: [src/Kernels/reset_radiance.cl] is not among the
    sources.  The spec: [Reset] "clears ... RadianceAccumulator to zero"; each
    work-item zeroes the entry of its index in the buffer bound to slot 2. *)
Definition zero_fill (b : buffer) (n : nat) (d : device) : device :=
  foldr (fun id d' => <[(b, id) := float4_zero]> d') d (seq 0 n).

Definition run_reset_radiance (k : CLKernel) (work_size : Z) (d : device) : device :=
  match arguments k !! 2%nat with
  | Some (ArgMem b) => zero_fill b (Z.to_nat work_size) d
  | _ => d
  end.

Section Device.

(** The stages whose code is out of scope (generation, intersection, miss and
    hit shading, resolve, the interop calls) may change the device in any
    way. *)
Variable stage : command -> device -> device.

Definition exec (c : command) (d : device) : device :=
  match c with
  | ExecuteKernel k n =>
      match program k with
      | clear_counter_cl => run_clear_counter k n d
      | increment_counter_cl => run_increment_counter k n d
      | reset_radiance_cl => run_reset_radiance k n d
      | _ => stage c d
      end
  | _ => stage c d
  end.

(** The stream is in order: each command runs on the memory its
    predecessors left. *)
Definition run (cs : list command) (d : device) : device :=
  fold_left (fun d' c => exec c d') cs d.

End Device.

(** The device after the commands of one [Reset] over [n] pixels: the sample
    counter cleared, then the radiance entries zeroed. *)
Definition reset_device (n : Z) (d : device) : device :=
  zero_fill radiance_buffer_ (Z.to_nat n) (<[(sample_counter_buffer_, 0%nat) := CUInt 0]> d).

(** ** Invariants of the host object *)

(** A kernel none of whose arguments is the display surface. *)
Definition no_surface (k : CLKernel) : Prop :=
  forall i, arguments k !! i <> Some (ArgMem output_image_).

(** What the constructor establishes and no method undoes: each member holds
    the kernel of its own program, the bindings made once at construction
    are in place, and only the resolve kernel is bound to the surface. *)
Record bound (it : PathTraceIntegrator) : Prop := mk_bound {
  bound_max_bounces : 0 <= max_bounces_ it < 2 ^ 32;
  bound_reset_program : program (reset_kernel_ it) = reset_radiance_cl;
  bound_raygen_program : program (raygen_kernel_ it) = raygeneration_cl;
  bound_miss_program : program (miss_kernel_ it) = miss_cl;
  bound_hit_program : program (hit_surface_kernel_ it) = hit_surface_cl;
  bound_clear_program : program (clear_counter_kernel_ it) = clear_counter_cl;
  bound_increment_program : program (increment_counter_kernel_ it) = increment_counter_cl;
  bound_resolve_program : program (resolve_kernel_ it) = resolve_radiance_cl;
  bound_reset_target :
    arguments (reset_kernel_ it) !! 2%nat = Some (ArgMem radiance_buffer_);
  bound_raygen_rays :
    arguments (raygen_kernel_ it) !! args.Raygen.kRayBuffer = Some (ArgMem (rays_buffer_ 0));
  bound_raygen_counter :
    arguments (raygen_kernel_ it) !! args.Raygen.kRayCounterBuffer
    = Some (ArgMem (ray_counter_buffer_ 0));
  bound_raygen_pixels :
    arguments (raygen_kernel_ it) !! args.Raygen.kPixelIndicesBuffer
    = Some (ArgMem (pixel_indices_buffer_ 0));
  bound_resolve_surface :
    arguments (resolve_kernel_ it) !! args.Resolve.kResolvedTexture
    = Some (ArgMem output_image_);
  bound_reset_no_surface : no_surface (reset_kernel_ it);
  bound_raygen_no_surface : no_surface (raygen_kernel_ it);
  bound_miss_no_surface : no_surface (miss_kernel_ it);
  bound_hit_no_surface : no_surface (hit_surface_kernel_ it);
  bound_clear_no_surface : no_surface (clear_counter_kernel_ it);
  bound_increment_no_surface : no_surface (increment_counter_kernel_ it)
}.

(** A command that refers to the display surface: a dispatch with the
    surface among its arguments, an intersection or an interop call on it. *)
Definition uses_surface (c : command) : Prop :=
  match c with
  | ExecuteKernel k _ => exists i, arguments k !! i = Some (ArgMem output_image_)
  | AccIntersectRays rays ray_counter _ hits =>
      rays = output_image_ \/ ray_counter = output_image_ \/ hits = output_image_
  | AcquireGLObject mem | ReleaseGLObject mem => mem = output_image_
  | Finish => False
  end.

(** The operations of each stage method, and the dispatch of the hit-shading
    stage for bounce [b]. *)
Definition stage_operations (s : stage_call) : list operation :=
  match s with
  | SGenerateRays => [OpKernel raygeneration_cl]
  | SIntersectRays _ => [OpIntersect]
  | SShadeMissedRays _ => [OpKernel miss_cl]
  | SClearOutgoingRayCounter _ => [OpKernel clear_counter_cl]
  | SShadeSurfaceHits _ => [OpKernel hit_surface_cl]
  | SAdvanceSampleCount => [OpKernel increment_counter_cl]
  | SResolveRadiance => [OpAcquire; OpKernel resolve_radiance_cl; OpFinish; OpRelease]
  end.

Definition bounce_operations : list operation :=
  [OpIntersect; OpKernel miss_cl; OpKernel clear_counter_cl; OpKernel hit_surface_cl].

Definition hit_shading_of (b : Z) (c : command) : Prop :=
  exists k n, c = ExecuteKernel k n /\ program k = hit_surface_cl
              /\ arguments k !! args.HitSurface.kBounce = Some (ArgUInt b).

(** ** Sample values *)

Definition sample_platform : platform :=
  mk_platform (fun _ => CL_SUCCESS) (fun _ => None).

Definition sample_process : process := mk_process (fun n => Z.of_nat n + 41) 0.

Definition empty_integrator : PathTraceIntegrator :=
  mk_integrator 0 0 0
    (new_kernel reset_radiance_cl) (new_kernel raygeneration_cl) (new_kernel miss_cl)
    (new_kernel hit_surface_cl) (new_kernel clear_counter_cl)
    (new_kernel increment_counter_cl) (new_kernel resolve_radiance_cl).

(** The object a successful construction returns. *)
Definition built (r : exn + (host * list command)) : host :=
  match r with
  | inr (h, _) => h
  | inl _ => mk_host empty_integrator sample_process
  end.

(** A 4x4 integrator with [max_bounces] bounces on a platform where every
    creation succeeds. *)
Definition sample_host (max_bounces : Z) : host :=
  built (PathTraceIntegrator_new sample_platform 4 4 max_bounces sample_process).

Definition float3_of_Z (x y z : Z) : float3 :=
  mk_float3 (F32.of_Z x) (F32.of_Z y) (F32.of_Z z).

(** A camera looking along +x with a front vector of length 2. *)
Definition long_front_camera : Camera :=
  mk_camera (float3_of_Z 0 0 0) (float3_of_Z 2 0 0) (float3_of_Z 0 1 0)
    0 F32.zero (F32.of_Z 1).

(** The basis [SetCameraData] derives from a camera: front, right, up. *)
Definition camera_right (camera : Camera) : float3 :=
  Normalize (Cross (GetFrontVector camera) (GetUpVector camera)).

Definition camera_up (camera : Camera) : float3 :=
  Cross (camera_right camera) (GetFrontVector camera).

(** Cameras at which the basis is put to the test: a front vector of length
    2; a unit front vector with an up vector at 45 degrees in the y-z plane;
    an up vector parallel to front. *)
Definition skewed_up_camera : Camera :=
  mk_camera (float3_of_Z 0 0 0) (float3_of_Z 1 0 0) (float3_of_Z 0 1 1)
    0 F32.zero (F32.of_Z 1).

Definition parallel_up_camera : Camera :=
  mk_camera (float3_of_Z 0 0 0) (float3_of_Z 1 0 0) (float3_of_Z 1 0 0)
    0 F32.zero (F32.of_Z 1).

Definition float3_nan : float3 := mk_float3 S754_nan S754_nan S754_nan.

(** A platform on which only the creation of [failing] fails, with
    [status]. *)
Definition failing_platform (failing : buffer) (status : Z) : platform :=
  mk_platform (fun b => if decide (b = failing) then status else CL_SUCCESS)
    (fun _ => None).

Definition CL_MEM_OBJECT_ALLOCATION_FAILURE : Z := -4.

(** ** Arithmetic of the stream indices *)

Lemma land_one_mod (b : Z) : Z.land b 1 = b mod 2.
Proof. change 1 with (Z.ones 1). rewrite Z.land_ones by lia. reflexivity. Qed.

Lemma incoming_idx_cases (b : Z) : incoming_idx b = 0 \/ incoming_idx b = 1.
Proof.
  unfold incoming_idx. rewrite land_one_mod.
  pose proof (Z.mod_pos_bound b 2 ltac:(lia)). lia.
Qed.

Lemma outgoing_idx_flip (b : Z) : outgoing_idx b = 1 - incoming_idx b.
Proof.
  unfold outgoing_idx, incoming_idx, u32. rewrite !land_one_mod.
  rewrite Z.mod_mod_divide by (exists (2 ^ 31); reflexivity).
  pose proof (Z.div_mod b 2 ltac:(lia)).
  pose proof (Z.div_mod (b + 1) 2 ltac:(lia)).
  pose proof (Z.mod_pos_bound b 2 ltac:(lia)).
  pose proof (Z.mod_pos_bound (b + 1) 2 ltac:(lia)). lia.
Qed.

Lemma outgoing_idx_cases (b : Z) : outgoing_idx b = 0 \/ outgoing_idx b = 1.
Proof. rewrite outgoing_idx_flip. destruct (incoming_idx_cases b); lia. Qed.

Lemma u32_small (z : Z) : 0 <= z < 2 ^ 32 -> u32 z = z.
Proof. intros H. unfold u32. apply Z.mod_small. exact H. Qed.

(** The pixel count is a 32-bit product: it is the number of pixels when
    that fits, and wraps otherwise. *)
Example num_pixels_fits : num_pixels (this (sample_host 2)) = 16.
Proof. reflexivity. Qed.

Example u32_product_wraps : u32 (65536 * 65537) = 65536.
Proof. reflexivity. Qed.

(** ** Kernel argument tables *)

Lemma program_SetArgument i v k : program (SetArgument i v k) = program k.
Proof. reflexivity. Qed.

Lemma lookup_SetArgument_eq i v k : arguments (SetArgument i v k) !! i = Some v.
Proof. apply lookup_insert_eq. Qed.

Lemma lookup_SetArgument_ne i j v k :
  i <> j -> arguments (SetArgument i v k) !! j = arguments k !! j.
Proof. intros H. apply lookup_insert_ne. exact H. Qed.

Lemma SetArgument_twice i v w k : SetArgument i v (SetArgument i w k) = SetArgument i v k.
Proof. unfold SetArgument. simpl. f_equal. apply insert_insert_eq. Qed.

Lemma no_surface_SetArgument i v k :
  v <> ArgMem output_image_ -> no_surface k -> no_surface (SetArgument i v k).
Proof.
  intros Hv Hk j. unfold SetArgument. simpl.
  destruct (decide (i = j)) as [->|Hij].
  - rewrite lookup_insert_eq. congruence.
  - rewrite lookup_insert_ne by exact Hij. apply Hk.
Qed.

Lemma no_surface_new_kernel p : no_surface (new_kernel p).
Proof. intros i. unfold new_kernel. simpl. rewrite lookup_empty. discriminate. Qed.

(** ** The host monad *)

Lemma bind_run {A B} (m : Host A) (f : A -> Host B) (h : host) :
  bind m f h =
  (fst (fst (f (fst (fst (m h))) (state_after m h))),
   state_after (f (fst (fst (m h)))) (state_after m h),
   enqueued m h ++ enqueued (f (fst (fst (m h)))) (state_after m h)).
Proof.
  unfold bind, state_after, enqueued.
  destruct (m h) as [[a h1] out1]. simpl.
  destruct (f a h1) as [[b h2] out2]. reflexivity.
Qed.

Lemma state_after_bind {A B} (m : Host A) (f : A -> Host B) (h : host) :
  state_after (bind m f) h = state_after (f (fst (fst (m h)))) (state_after m h).
Proof. unfold state_after at 1. rewrite bind_run. reflexivity. Qed.

Lemma enqueued_bind {A B} (m : Host A) (f : A -> Host B) (h : host) :
  enqueued (bind m f) h = enqueued m h ++ enqueued (f (fst (fst (m h)))) (state_after m h).
Proof. unfold enqueued at 1. rewrite bind_run. reflexivity. Qed.

Lemma host_unit_eq (m m' : Host unit) (h h' : host) :
  state_after m h = state_after m' h' -> enqueued m h = enqueued m' h' -> m h = m' h'.
Proof.
  unfold state_after, enqueued.
  destruct (m h) as [[[] h1] out1], (m' h') as [[[] h2] out2]. simpl.
  intros -> ->. reflexivity.
Qed.

Lemma bind_ret_tt (m : Host unit) (h : host) : bind m (fun _ => ret tt) h = m h.
Proof.
  apply host_unit_eq.
  - rewrite state_after_bind. reflexivity.
  - rewrite enqueued_bind. apply app_nil_r.
Qed.

Lemma state_after_invoke_all_app (l1 l2 : list stage_call) (h : host) :
  state_after (invoke_all (l1 ++ l2)) h
  = state_after (invoke_all l2) (state_after (invoke_all l1) h).
Proof.
  revert h. induction l1 as [|s l1 IH]; intros h; simpl.
  - reflexivity.
  - rewrite !state_after_bind. apply IH.
Qed.

Lemma enqueued_invoke_all_app (l1 l2 : list stage_call) (h : host) :
  enqueued (invoke_all (l1 ++ l2)) h
  = enqueued (invoke_all l1) h ++ enqueued (invoke_all l2) (state_after (invoke_all l1) h).
Proof.
  revert h. induction l1 as [|s l1 IH]; intros h; simpl.
  - reflexivity.
  - rewrite !enqueued_bind, !state_after_bind, IH. apply app_assoc.
Qed.

Lemma invoke_all_app (l1 l2 : list stage_call) (h : host) :
  invoke_all (l1 ++ l2) h = bind (invoke_all l1) (fun _ => invoke_all l2) h.
Proof.
  apply host_unit_eq.
  - rewrite state_after_invoke_all_app, state_after_bind. reflexivity.
  - rewrite enqueued_invoke_all_app, enqueued_bind. reflexivity.
Qed.

(** Unfolding a method on an explicit host object. *)
Ltac host_step :=
  cbv [state_after enqueued perform invoke bounce_body
       Reset SetCameraData SetSceneData AdvanceSampleCount GenerateRays IntersectRays
       ShadeMissedRays ShadeSurfaceHits ClearOutgoingRayCounter ResolveRadiance
       set_arg execute modify_this get_this enqueue rand bind ret fst snd app
       this libc rand_values rand_calls
       with_raygen_kernel with_miss_kernel with_hit_surface_kernel
       with_clear_counter_kernel with_increment_counter_kernel
       width_ height_ max_bounces_ reset_kernel_ raygen_kernel_ miss_kernel_
       hit_surface_kernel_ clear_counter_kernel_ increment_counter_kernel_
       resolve_kernel_].

Ltac destruct_host h :=
  let it := fresh "it" in
  let p := fresh "p" in
  destruct h as [it p];
  destruct it as [w hg mb k_reset k_raygen k_miss k_hit k_clear k_incr k_resolve].

(** No stage method changes the resolution or the bounce count. *)
Lemma dims_invoke (s : stage_call) (h : host) :
  width_ (this (state_after (invoke s) h)) = width_ (this h)
  /\ height_ (this (state_after (invoke s) h)) = height_ (this h)
  /\ max_bounces_ (this (state_after (invoke s) h)) = max_bounces_ (this h).
Proof. destruct_host h. destruct s; host_step; auto. Qed.

Lemma dims_invoke_all (ss : list stage_call) (h : host) :
  width_ (this (state_after (invoke_all ss) h)) = width_ (this h)
  /\ height_ (this (state_after (invoke_all ss) h)) = height_ (this h)
  /\ max_bounces_ (this (state_after (invoke_all ss) h)) = max_bounces_ (this h).
Proof.
  revert h. induction ss as [|s ss IH]; intros h; simpl.
  - auto.
  - rewrite state_after_bind.
    destruct (IH (state_after (invoke s) h)) as (Hw & Hh & Hm).
    destruct (dims_invoke s h) as (Hw' & Hh' & Hm').
    rewrite Hw, Hh, Hm. auto.
Qed.

Lemma num_pixels_invoke_all (ss : list stage_call) (h : host) :
  num_pixels (this (state_after (invoke_all ss) h)) = num_pixels (this h).
Proof.
  unfold num_pixels. destruct (dims_invoke_all ss h) as (-> & -> & _). reflexivity.
Qed.

(** ** The bounce loop *)

Lemma bounces_from_S (b : Z) (n : nat) :
  bounces_from b (S n) = b :: bounces_from (b + 1) n.
Proof.
  unfold bounces_from. simpl. f_equal; [lia|].
  rewrite <- seq_shift, map_map. apply map_ext. intros i. lia.
Qed.

Lemma bind_ext {A B} (m : Host A) (f g : A -> Host B) (h : host) :
  (forall a h', f a h' = g a h') -> bind m f h = bind m g h.
Proof.
  intros Hfg. unfold bind. destruct (m h) as [[a h1] out1]. rewrite Hfg. reflexivity.
Qed.

Lemma bounce_body_calls (b : Z) (h : host) :
  invoke_all (bounce_calls b) h = bounce_body b h.
Proof.
  unfold bounce_calls, bounce_body. cbn [invoke_all invoke].
  apply bind_ext; intros _ h1.
  apply bind_ext; intros _ h2.
  apply bind_ext; intros _ h3.
  apply bind_ret_tt.
Qed.

Lemma bounce_loop_S (n : nat) (b : Z) (h : host) :
  bounce_loop (S n) b h =
  if b <? max_bounces_ (this h)
  then bind (bounce_body b) (fun _ => bounce_loop n (u32 (b + 1))) h
  else ret tt h.
Proof.
  cbn [bounce_loop]. unfold bind at 1, get_this.
  destruct (b <? max_bounces_ (this h)).
  - destruct (bind _ _ h) as [[[] h1] out1]. reflexivity.
  - reflexivity.
Qed.

Lemma bounce_loop_schedule (n : nat) : forall (b : Z) (h : host),
  0 <= b -> b + Z.of_nat n = max_bounces_ (this h) -> max_bounces_ (this h) < 2 ^ 32 ->
  bounce_loop n b h = invoke_all (flat_map bounce_calls (bounces_from b n)) h.
Proof.
  induction n as [|n IH]; intros b h Hb Hn Hmax.
  - reflexivity.
  - rewrite bounces_from_S. cbn [flat_map].
    rewrite invoke_all_app.
    cbn [bounce_loop]. unfold bind at 1, get_this. cbn [fst snd].
    assert (Hlt : (b <? max_bounces_ (this h)) = true) by (apply Z.ltb_lt; lia).
    rewrite Hlt.
    assert (Hloop : forall h1, max_bounces_ (this h1) = max_bounces_ (this h) ->
              bounce_loop n (u32 (b + 1)) h1
              = invoke_all (flat_map bounce_calls (bounces_from (b + 1) n)) h1).
    { intros h1 Hh1. rewrite u32_small by lia. apply IH; lia. }
    unfold bind.
    rewrite <- (bounce_body_calls b h).
    pose proof (dims_invoke_all (bounce_calls b) h) as (_ & _ & Hm).
    unfold state_after in Hm.
    destruct (invoke_all (bounce_calls b) h) as [[[] h1] out1]. simpl in Hm.
    rewrite (Hloop h1 Hm).
    destruct (invoke_all _ h1) as [[[] h2] out2].
    rewrite app_nil_l. reflexivity.
Qed.

Lemma bind_cong {A B} (m m' : Host A) (f g : A -> Host B) (h : host) :
  m h = m' h ->
  f (fst (fst (m h))) (state_after m h) = g (fst (fst (m h))) (state_after m h) ->
  bind m f h = bind m' g h.
Proof.
  intros Hm Hfg. unfold bind. rewrite <- Hm.
  unfold state_after in Hfg. destruct (m h) as [[a h1] out1]. simpl in Hfg.
  rewrite Hfg. reflexivity.
Qed.

Lemma Integrate_unfold (h : host) :
  Integrate h = Integrate_with (Z.to_nat (max_bounces_ (this h))) h.
Proof.
  unfold Integrate, bind, get_this.
  destruct (Integrate_with _ h) as [[[] h1] out1]. reflexivity.
Qed.

(** The loop of a frame runs the bounces [0 .. max_bounces_ - 1] in
    order, between generation and the two closing stages. *)
Lemma Integrate_schedule (h : host) :
  0 <= max_bounces_ (this h) < 2 ^ 32 ->
  Integrate h = invoke_all (frame_schedule (max_bounces_ (this h))) h.
Proof.
  intros Hmax. rewrite Integrate_unfold.
  unfold Integrate_with, frame_schedule. cbn [invoke_all invoke].
  apply bind_cong; [reflexivity|].
  destruct (dims_invoke SGenerateRays h) as (_ & _ & Hm). cbn [invoke] in Hm.
  set (h1 := state_after GenerateRays h) in *.
  rewrite invoke_all_app.
  apply bind_cong.
  - rewrite <- Hm. apply bounce_loop_schedule; rewrite ?Hm; lia.
  - cbn [invoke_all invoke].
    apply bind_ext; intros _ h2. symmetry. apply bind_ret_tt.
Qed.

(** A larger iteration budget changes nothing: the loop ends by its test. *)
Lemma bounce_loop_fuel (n extra : nat) : forall (b : Z) (h : host),
  0 <= b -> b + Z.of_nat n = max_bounces_ (this h) -> max_bounces_ (this h) < 2 ^ 32 ->
  bounce_loop (n + extra) b h = bounce_loop n b h.
Proof.
  induction n as [|n IH]; intros b h Hb Hn Hmax.
  - destruct extra as [|extra]; [reflexivity|].
    cbn [Nat.add]. rewrite bounce_loop_S.
    assert (Hge : (b <? max_bounces_ (this h)) = false) by (apply Z.ltb_ge; lia).
    rewrite Hge. reflexivity.
  - cbn [Nat.add]. rewrite !bounce_loop_S.
    assert (Hlt : (b <? max_bounces_ (this h)) = true) by (apply Z.ltb_lt; lia).
    rewrite Hlt.
    pose proof (dims_invoke_all (bounce_calls b) h) as (_ & _ & Hm).
    unfold state_after in Hm. rewrite bounce_body_calls in Hm.
    apply bind_cong; [reflexivity|].
    rewrite u32_small by lia. apply IH; unfold state_after; rewrite ?Hm; lia.
Qed.

Lemma Integrate_total (extra : nat) (h : host) :
  0 <= max_bounces_ (this h) < 2 ^ 32 ->
  Integrate_with (Z.to_nat (max_bounces_ (this h)) + extra) h = Integrate h.
Proof.
  intros Hmax. rewrite Integrate_unfold. unfold Integrate_with.
  apply bind_cong; [reflexivity|].
  destruct (dims_invoke SGenerateRays h) as (_ & _ & Hm). cbn [invoke] in Hm.
  apply bind_cong; [|reflexivity].
  rewrite <- Hm. apply bounce_loop_fuel; rewrite ?Hm; lia.
Qed.

(** ** Preservation of the invariants *)

Ltac simpl_members :=
  cbn [this libc width_ height_ max_bounces_ reset_kernel_ raygen_kernel_ miss_kernel_
       hit_surface_kernel_ clear_counter_kernel_ increment_counter_kernel_
       resolve_kernel_] in *.

Ltac solve_no_surface :=
  repeat (apply no_surface_SetArgument; [discriminate|]);
  first [assumption | apply no_surface_new_kernel].

Ltac solve_lookup :=
  repeat (rewrite lookup_SetArgument_ne by discriminate);
  first [assumption | apply lookup_SetArgument_eq].

Ltac solve_bound :=
  constructor;
  cbn [width_ height_ max_bounces_ reset_kernel_ raygen_kernel_ miss_kernel_
       hit_surface_kernel_ clear_counter_kernel_ increment_counter_kernel_
       resolve_kernel_];
  rewrite ?program_SetArgument;
  first [assumption | reflexivity | solve_no_surface | solve_lookup].

Lemma bound_invoke (s : stage_call) (h : host) :
  bound (this h) -> bound (this (state_after (invoke s) h)).
Proof.
  destruct_host h. intros []. destruct s; host_step; solve_bound.
Qed.

Lemma bound_invoke_all (ss : list stage_call) (h : host) :
  bound (this h) -> bound (this (state_after (invoke_all ss) h)).
Proof.
  revert h. induction ss as [|s ss IH]; intros h Hb; cbn [invoke_all].
  - exact Hb.
  - rewrite state_after_bind. apply IH, bound_invoke, Hb.
Qed.

Lemma bound_perform (c : call) (h : host) :
  bound (this h) -> bound (this (state_after (perform c) h)).
Proof.
  intros Hb. destruct c.
  - destruct_host h. destruct Hb. host_step. solve_bound.
  - destruct_host h. destruct Hb. host_step. solve_bound.
  - destruct_host h. destruct Hb. host_step. solve_bound.
  - cbn [perform]. unfold state_after.
    rewrite Integrate_schedule by apply Hb.
    apply bound_invoke_all, Hb.
  - apply bound_invoke, Hb.
Qed.

Lemma bound_new cl width height max_bounces p h out :
  0 <= max_bounces < 2 ^ 32 ->
  PathTraceIntegrator_new cl width height max_bounces p = inr (h, out) ->
  bound (this h).
Proof.
  intros Hmax. unfold PathTraceIntegrator_new.
  destruct (negb (create_status cl throughputs_buffer_ =? CL_SUCCESS)); [discriminate|].
  destruct (negb (create_status cl output_image_ =? CL_SUCCESS)); [discriminate|].
  destruct (load_kernels cl _); [discriminate|].
  host_step. intros [= <- _]. solve_bound.
Qed.

Lemma reachable_bound (h : host) : reachable h -> bound (this h).
Proof.
  induction 1 as [cl width height max_bounces p h out Hmax Hnew | c h _ IH].
  - eapply bound_new; eassumption.
  - apply bound_perform, IH.
Qed.

(** ** What each stage method enqueues *)

Lemma flipped_index_differs (i o : Z) : o = 1 - i -> i <> o.
Proof. lia. Qed.

(** C2: for every bounce [b], [IntersectRays], [ShadeMissedRays] and
    [ShadeSurfaceHits] take their incoming ray buffer, pixel-index buffer and
    ray counter at index [b & 1]; [ShadeSurfaceHits] writes, and
    [ClearOutgoingRayCounter] clears, at index [(b + 1) & 1]; the two indices
    are 0 and 1 in some order, so the incoming and the outgoing buffers are
    never the same. *)
Theorem stream_indices_by_parity (b : Z) (h : host) :
  let i := Z.land b 1 in
  let o := Z.land (u32 (b + 1)) 1 in
  let n := num_pixels (this h) in
  let miss := miss_kernel_ (this (state_after (ShadeMissedRays b) h)) in
  let hit := hit_surface_kernel_ (this (state_after (ShadeSurfaceHits b) h)) in
  let clear := clear_counter_kernel_ (this (state_after (ClearOutgoingRayCounter b) h)) in
  enqueued (IntersectRays b) h
    = [AccIntersectRays (rays_buffer_ i) (ray_counter_buffer_ i) n hits_buffer_]
  /\ (enqueued (ShadeMissedRays b) h = [ExecuteKernel miss n]
      /\ arguments miss !! args.Miss.kRayBuffer = Some (ArgMem (rays_buffer_ i))
      /\ arguments miss !! args.Miss.kPixelIndicesBuffer
         = Some (ArgMem (pixel_indices_buffer_ i))
      /\ arguments miss !! args.Miss.kRayCounterBuffer
         = Some (ArgMem (ray_counter_buffer_ i)))
  /\ (enqueued (ShadeSurfaceHits b) h = [ExecuteKernel hit n]
      /\ arguments hit !! args.HitSurface.kIncomingRayBuffer
         = Some (ArgMem (rays_buffer_ i))
      /\ arguments hit !! args.HitSurface.kIncomingPixelIndicesBuffer
         = Some (ArgMem (pixel_indices_buffer_ i))
      /\ arguments hit !! args.HitSurface.kIncomingRayCounterBuffer
         = Some (ArgMem (ray_counter_buffer_ i))
      /\ arguments hit !! args.HitSurface.kOutgoingRayBuffer
         = Some (ArgMem (rays_buffer_ o))
      /\ arguments hit !! args.HitSurface.kOutgoingPixelIndicesBuffer
         = Some (ArgMem (pixel_indices_buffer_ o))
      /\ arguments hit !! args.HitSurface.kOutgoingRayCounterBuffer
         = Some (ArgMem (ray_counter_buffer_ o)))
  /\ (enqueued (ClearOutgoingRayCounter b) h = [ExecuteKernel clear 1]
      /\ arguments clear !! 0%nat = Some (ArgMem (ray_counter_buffer_ o)))
  /\ (i = 0 \/ i = 1) /\ o = 1 - i /\ i <> o
  /\ rays_buffer_ i <> rays_buffer_ o
  /\ pixel_indices_buffer_ i <> pixel_indices_buffer_ o
  /\ ray_counter_buffer_ i <> ray_counter_buffer_ o.
Proof.
  pose proof (incoming_idx_cases b) as Hi.
  pose proof (outgoing_idx_flip b) as Ho.
  unfold incoming_idx, outgoing_idx in Hi, Ho.
  pose proof (flipped_index_differs _ _ Ho) as Hne.
  destruct_host h. host_step.
  repeat split; try reflexivity; try solve_lookup; try assumption; congruence.
Qed.

(** C5: for every bounce [b], [ShadeMissedRays(b)] binds the ray buffer, the
    pixel-index buffer and the ray counter of index [b & 1] to the miss
    kernel and then dispatches that kernel once, over [width_ * height_]
    work-items: the 32-bit product the buffers are sized with, which is the
    number of pixels whenever that fits 32 bits, and not a count read from
    the device. *)
Theorem ShadeMissedRays_dispatch (b : Z) (h : host) :
  let i := Z.land b 1 in
  let k := miss_kernel_ (this (state_after (ShadeMissedRays b) h)) in
  enqueued (ShadeMissedRays b) h = [ExecuteKernel k (u32 (width_ (this h) * height_ (this h)))]
  /\ k = SetArgument args.Miss.kRayCounterBuffer (ArgMem (ray_counter_buffer_ i))
           (SetArgument args.Miss.kPixelIndicesBuffer (ArgMem (pixel_indices_buffer_ i))
           (SetArgument args.Miss.kRayBuffer (ArgMem (rays_buffer_ i))
              (miss_kernel_ (this h))))
  /\ program k = program (miss_kernel_ (this h))
  /\ arguments k !! args.Miss.kRayBuffer = Some (ArgMem (rays_buffer_ i))
  /\ arguments k !! args.Miss.kPixelIndicesBuffer = Some (ArgMem (pixel_indices_buffer_ i))
  /\ arguments k !! args.Miss.kRayCounterBuffer = Some (ArgMem (ray_counter_buffer_ i))
  /\ (0 <= width_ (this h) * height_ (this h) < 2 ^ 32 ->
      u32 (width_ (this h) * height_ (this h)) = width_ (this h) * height_ (this h))
  /\ (reachable h -> program k = miss_cl).
Proof.
  destruct_host h. host_step.
  repeat split; try reflexivity; try solve_lookup.
  - intros Hr. apply u32_small. exact Hr.
  - intros Hr. apply reachable_bound in Hr. apply (bound_miss_program _ Hr).
Qed.

(** ** The operations of a frame *)

Lemma operations_invoke (s : stage_call) (h : host) :
  bound (this h) ->
  map operation_of (enqueued (invoke s) h) = stage_operations s.
Proof.
  destruct_host h. intros []. destruct s; host_step;
    cbn [map operation_of stage_operations]; rewrite ?program_SetArgument;
    simpl_members; congruence.
Qed.

Lemma operations_invoke_all (ss : list stage_call) (h : host) :
  bound (this h) ->
  map operation_of (enqueued (invoke_all ss) h) = flat_map stage_operations ss.
Proof.
  revert h. induction ss as [|s ss IH]; intros h Hb; cbn [invoke_all flat_map].
  - reflexivity.
  - rewrite enqueued_bind, map_app, operations_invoke by exact Hb.
    rewrite IH by (apply bound_invoke, Hb). reflexivity.
Qed.

Lemma frame_operations (m : Z) :
  flat_map stage_operations (frame_schedule m)
  = OpKernel raygeneration_cl
      :: flat_map (fun _ => bounce_operations) (bounces_from 0 (Z.to_nat m))
      ++ [OpKernel increment_counter_cl; OpAcquire; OpKernel resolve_radiance_cl;
          OpFinish; OpRelease].
Proof.
  unfold frame_schedule. cbn [flat_map stage_operations app].
  rewrite flat_map_app. cbn [flat_map stage_operations app]. do 2 f_equal.
  induction (bounces_from 0 (Z.to_nat m)) as [|b bs IH]; cbn [flat_map].
  - reflexivity.
  - rewrite flat_map_app, IH. reflexivity.
Qed.

(** C1: every [Integrate()] is the stage calls of [frame_schedule] run one
    after the other: [GenerateRays()]; for each bounce [b] from 0 to
    [max_bounces_ - 1], in increasing order, [IntersectRays(b)],
    [ShadeMissedRays(b)], [ClearOutgoingRayCounter(b)], [ShadeSurfaceHits(b)];
    then one [AdvanceSampleCount()] and one [ResolveRadiance()].  The command
    stream it enqueues is, operation by operation, generation, the four
    operations of each bounce, the counter increment and the resolve
    bracket, nothing else and nothing twice. *)
Theorem Integrate_dispatch_sequence (h : host) :
  reachable h ->
  Integrate h = invoke_all (frame_schedule (max_bounces_ (this h))) h
  /\ frame_schedule (max_bounces_ (this h))
     = SGenerateRays
         :: flat_map (fun b => [SIntersectRays b; SShadeMissedRays b;
                                SClearOutgoingRayCounter b; SShadeSurfaceHits b])
              (map (fun i => 0 + Z.of_nat i) (seq 0 (Z.to_nat (max_bounces_ (this h)))))
         ++ [SAdvanceSampleCount; SResolveRadiance]
  /\ map operation_of (enqueued Integrate h)
     = OpKernel raygeneration_cl
         :: flat_map (fun _ => [OpIntersect; OpKernel miss_cl; OpKernel clear_counter_cl;
                                OpKernel hit_surface_cl])
              (bounces_from 0 (Z.to_nat (max_bounces_ (this h))))
         ++ [OpKernel increment_counter_cl; OpAcquire; OpKernel resolve_radiance_cl;
             OpFinish; OpRelease].
Proof.
  intros Hr. apply reachable_bound in Hr.
  pose proof (bound_max_bounces _ Hr) as Hmax.
  split; [apply Integrate_schedule, Hmax|]. split; [reflexivity|].
  unfold enqueued. rewrite Integrate_schedule by exact Hmax.
  fold (enqueued (invoke_all (frame_schedule (max_bounces_ (this h)))) h).
  rewrite operations_invoke_all by exact Hr. apply frame_operations.
Qed.

Lemma sample_host_reachable (max_bounces : Z) :
  0 <= max_bounces < 2 ^ 32 -> reachable (sample_host max_bounces).
Proof.
  intros Hmax.
  eapply (reachable_new sample_platform 4 4 max_bounces sample_process); [exact Hmax|].
  reflexivity.
Qed.

Lemma Integrate_dispatch_sequence_witness :
  map operation_of (enqueued Integrate (sample_host 2))
  = [OpKernel raygeneration_cl;
     OpIntersect; OpKernel miss_cl; OpKernel clear_counter_cl; OpKernel hit_surface_cl;
     OpIntersect; OpKernel miss_cl; OpKernel clear_counter_cl; OpKernel hit_surface_cl;
     OpKernel increment_counter_cl; OpAcquire; OpKernel resolve_radiance_cl;
     OpFinish; OpRelease].
Proof.
  pose proof (Integrate_dispatch_sequence (sample_host 2)
                (sample_host_reachable 2 ltac:(lia))) as (_ & _ & H).
  exact H.
Defined.

(** ** The resolve bracket *)

Lemma resolve_kernel_invoke (s : stage_call) (h : host) :
  resolve_kernel_ (this (state_after (invoke s) h)) = resolve_kernel_ (this h).
Proof. destruct_host h. destruct s; host_step; reflexivity. Qed.

Lemma resolve_kernel_invoke_all (ss : list stage_call) (h : host) :
  resolve_kernel_ (this (state_after (invoke_all ss) h)) = resolve_kernel_ (this h).
Proof.
  revert h. induction ss as [|s ss IH]; intros h; cbn [invoke_all].
  - reflexivity.
  - rewrite state_after_bind, IH. apply resolve_kernel_invoke.
Qed.

Lemma not_surface_kernel (k : CLKernel) (n : Z) :
  no_surface k -> ~ uses_surface (ExecuteKernel k n).
Proof. intros Hk [i Hi]. exact (Hk i Hi). Qed.

(** Every stage but the resolve leaves the surface alone and does not block. *)
Lemma quiet_invoke (s : stage_call) (h : host) :
  bound (this h) -> s <> SResolveRadiance ->
  Forall (fun c => ~ uses_surface c /\ c <> Finish) (enqueued (invoke s) h).
Proof.
  destruct_host h. intros [] Hs. simpl_members.
  destruct s; try congruence; host_step;
    (repeat constructor; [ | discriminate ]);
    try (apply not_surface_kernel; solve_no_surface).
  cbn [uses_surface]. intros [H|[H|H]]; discriminate.
Qed.

Lemma quiet_invoke_all (ss : list stage_call) (h : host) :
  bound (this h) -> Forall (fun s => s <> SResolveRadiance) ss ->
  Forall (fun c => ~ uses_surface c /\ c <> Finish) (enqueued (invoke_all ss) h).
Proof.
  revert h. induction ss as [|s ss IH]; intros h Hb Hss; cbn [invoke_all].
  - constructor.
  - inversion Hss as [|? ? Hs Hss']; subst.
    rewrite enqueued_bind. apply Forall_app. split.
    + apply quiet_invoke; assumption.
    + apply IH; [apply bound_invoke, Hb | exact Hss'].
Qed.

Lemma bounce_calls_not_resolve (bs : list Z) :
  Forall (fun s => s <> SResolveRadiance) (flat_map bounce_calls bs).
Proof.
  induction bs as [|b bs IH]; cbn [flat_map].
  - constructor.
  - apply Forall_app. split; [|exact IH].
    unfold bounce_calls. repeat constructor; discriminate.
Qed.

(** C8: [ResolveRadiance()] enqueues, in this order, the acquisition of the
    display surface, one dispatch of the resolve kernel (bound to the surface)
    over [width_ * height_] work-items, a [Finish] and the release of the
    surface, and changes nothing on the host.  In a frame these are the last
    four commands: no command before them refers to the surface, and none
    is a [Finish].  Outside a frame, [Reset] enqueues no such command either,
    and [SetCameraData] and [SetSceneData] enqueue nothing. *)
Theorem ResolveRadiance_bracket (h : host) :
  reachable h ->
  ResolveRadiance h
    = (tt, h, [AcquireGLObject output_image_;
               ExecuteKernel (resolve_kernel_ (this h))
                 (u32 (width_ (this h) * height_ (this h)));
               Finish;
               ReleaseGLObject output_image_])
  /\ program (resolve_kernel_ (this h)) = resolve_radiance_cl
  /\ arguments (resolve_kernel_ (this h)) !! args.Resolve.kResolvedTexture
     = Some (ArgMem output_image_)
  /\ (0 <= width_ (this h) * height_ (this h) < 2 ^ 32 ->
      u32 (width_ (this h) * height_ (this h)) = width_ (this h) * height_ (this h))
  /\ (exists pre,
       enqueued Integrate h
       = pre ++ [AcquireGLObject output_image_;
                 ExecuteKernel (resolve_kernel_ (this h))
                   (u32 (width_ (this h) * height_ (this h)));
                 Finish;
                 ReleaseGLObject output_image_]
       /\ Forall (fun c => ~ uses_surface c /\ c <> Finish) pre)
  /\ Forall (fun c => ~ uses_surface c /\ c <> Finish) (enqueued Reset h)
  /\ (forall camera, enqueued (SetCameraData camera) h = [])
  /\ (forall scene, enqueued (SetSceneData scene) h = []).
Proof.
  intros Hr. apply reachable_bound in Hr.
  pose proof (bound_max_bounces _ Hr) as Hmax.
  split; [destruct_host h; reflexivity|].
  split; [apply Hr|]. split; [apply Hr|]. split; [apply u32_small|].
  split; [|split; [|split]]; cycle 1.
  { destruct Hr. destruct_host h. simpl_members. host_step.
    repeat constructor; try discriminate; apply not_surface_kernel; solve_no_surface. }
  { intros camera. destruct_host h. destruct p. reflexivity. }
  { intros scene. destruct_host h. reflexivity. }
  set (ss := SGenerateRays
               :: flat_map bounce_calls (bounces_from 0 (Z.to_nat (max_bounces_ (this h))))
               ++ [SAdvanceSampleCount]).
  assert (Hsched : frame_schedule (max_bounces_ (this h)) = ss ++ [SResolveRadiance]).
  { unfold frame_schedule, ss. cbn [app]. rewrite <- app_assoc. reflexivity. }
  exists (enqueued (invoke_all ss) h). split.
  - unfold enqueued at 1. rewrite Integrate_schedule, Hsched by exact Hmax.
    fold (enqueued (invoke_all (ss ++ [SResolveRadiance])) h).
    rewrite enqueued_invoke_all_app. f_equal.
    cbn [invoke_all invoke]. rewrite enqueued_bind.
    pose proof (resolve_kernel_invoke_all ss h) as Hk.
    pose proof (dims_invoke_all ss h) as (Hw & Hh & _).
    destruct (state_after (invoke_all ss) h) as [it1 p1].
    cbn [this] in Hk, Hw, Hh. rewrite <- Hk, <- Hw, <- Hh.
    destruct it1. reflexivity.
  - apply quiet_invoke_all; [exact Hr|].
    unfold ss. constructor; [discriminate|].
    apply Forall_app. split; [apply bounce_calls_not_resolve|].
    repeat constructor; discriminate.
Qed.

Lemma ResolveRadiance_bracket_witness :
  enqueued ResolveRadiance (sample_host 1)
  = [AcquireGLObject output_image_;
     ExecuteKernel (resolve_kernel_ (this (sample_host 1))) 16;
     Finish;
     ReleaseGLObject output_image_].
Proof.
  pose proof (ResolveRadiance_bracket (sample_host 1)
                (sample_host_reachable 1 ltac:(lia))) as (H & _).
  unfold enqueued. rewrite H. reflexivity.
Defined.

(** ** A frame without bounces *)

(** C6: with [max_bounces_ = 0], [Integrate()] enqueues exactly six
    commands: the ray-generation dispatch, one dispatch of the increment
    kernel bound to the sample counter over one work-item, and the resolve
    bracket (acquire, resolve dispatch, finish, release); no intersection, no
    miss-shading, counter-clear or hit-shading dispatch is among them.  That
    one increment dispatch adds one to the sample counter. *)
Theorem Integrate_zero_bounces (h : host) :
  reachable h -> max_bounces_ (this h) = 0 ->
  let it := this h in
  let increment :=
    SetArgument 0 (ArgMem sample_counter_buffer_) (increment_counter_kernel_ it) in
  enqueued Integrate h
    = [ExecuteKernel (raygen_kernel_ it) (num_pixels it);
       ExecuteKernel increment 1;
       AcquireGLObject output_image_;
       ExecuteKernel (resolve_kernel_ it) (num_pixels it);
       Finish;
       ReleaseGLObject output_image_]
  /\ program (raygen_kernel_ it) = raygeneration_cl
  /\ program increment = increment_counter_cl
  /\ arguments increment !! 0%nat = Some (ArgMem sample_counter_buffer_)
  /\ program (resolve_kernel_ it) = resolve_radiance_cl
  /\ Forall (fun c => operation_of c <> OpIntersect
                      /\ operation_of c <> OpKernel miss_cl
                      /\ operation_of c <> OpKernel clear_counter_cl
                      /\ operation_of c <> OpKernel hit_surface_cl)
       (enqueued Integrate h)
  /\ (forall (stage : command -> device -> device) (d : device) (samples : Z),
        d !! (sample_counter_buffer_, 0%nat) = Some (CUInt samples) ->
        exec stage (ExecuteKernel increment 1) d !! (sample_counter_buffer_, 0%nat)
        = Some (CUInt (u32 (samples + 1)))).
Proof.
  intros Hr Hzero. apply reachable_bound in Hr.
  assert (Hlog : enqueued Integrate h
    = [ExecuteKernel (raygen_kernel_ (this h)) (num_pixels (this h));
       ExecuteKernel
         (SetArgument 0 (ArgMem sample_counter_buffer_)
            (increment_counter_kernel_ (this h))) 1;
       AcquireGLObject output_image_;
       ExecuteKernel (resolve_kernel_ (this h)) (num_pixels (this h));
       Finish;
       ReleaseGLObject output_image_]).
  { unfold enqueued. rewrite Integrate_unfold, Hzero.
    destruct_host h. reflexivity. }
  cbn zeta. rewrite Hlog.
  destruct Hr. simpl_members.
  split; [reflexivity|]. split; [assumption|]. split; [assumption|].
  split; [apply lookup_SetArgument_eq|]. split; [assumption|]. split.
  - repeat constructor; cbn [operation_of]; rewrite ?program_SetArgument; congruence.
  - intros stage d samples Hd. cbn [exec]. rewrite program_SetArgument.
    match goal with H : program _ = increment_counter_cl |- _ => rewrite H end.
    unfold run_increment_counter. rewrite lookup_SetArgument_eq, Hd.
    apply lookup_insert_eq.
Qed.

Lemma Integrate_zero_bounces_witness :
  map operation_of (enqueued Integrate (sample_host 0))
  = [OpKernel raygeneration_cl; OpKernel increment_counter_cl; OpAcquire;
     OpKernel resolve_radiance_cl; OpFinish; OpRelease].
Proof.
  pose proof (Integrate_zero_bounces (sample_host 0)
                (sample_host_reachable 0 ltac:(lia)) eq_refl) as (H & _).
  rewrite H. reflexivity.
Defined.

(** ** One bounce inside a frame *)

Lemma bounces_from_app (first : Z) (n1 n2 : nat) :
  bounces_from first (n1 + n2)
  = bounces_from first n1 ++ bounces_from (first + Z.of_nat n1) n2.
Proof.
  revert first. induction n1 as [|n1 IH]; intros first.
  - cbn [Nat.add]. replace (first + Z.of_nat 0) with first by lia. reflexivity.
  - cbn [Nat.add]. rewrite !bounces_from_S, IH. cbn [app]. do 3 f_equal. lia.
Qed.

Lemma frame_schedule_split (m b : Z) :
  0 <= b < m ->
  frame_schedule m
  = (SGenerateRays :: flat_map bounce_calls (bounces_from 0 (Z.to_nat b)))
      ++ bounce_calls b
      ++ (flat_map bounce_calls (bounces_from (b + 1) (Z.to_nat (m - b - 1)))
            ++ [SAdvanceSampleCount; SResolveRadiance]).
Proof.
  intros Hb. unfold frame_schedule.
  replace (Z.to_nat m) with (Z.to_nat b + S (Z.to_nat (m - b - 1)))%nat by lia.
  rewrite bounces_from_app, bounces_from_S, flat_map_app. cbn [flat_map].
  replace (0 + Z.of_nat (Z.to_nat b)) with b by lia.
  cbn [app]. rewrite <- !app_assoc. reflexivity.
Qed.

(** A bounce on an explicit host object. *)
Ltac bounce_step :=
  cbv [state_after enqueued invoke_all bounce_calls invoke
       IntersectRays ShadeMissedRays ShadeSurfaceHits ClearOutgoingRayCounter
       set_arg execute modify_this get_this enqueue bind ret fst snd app
       this libc with_miss_kernel with_hit_surface_kernel with_clear_counter_kernel
       width_ height_ max_bounces_ reset_kernel_ raygen_kernel_ miss_kernel_
       hit_surface_kernel_ clear_counter_kernel_ increment_counter_kernel_
       resolve_kernel_].

(** The four commands of bounce [b], whatever the frame did before. *)
Lemma bounce_log (b : Z) (h : host) :
  bound (this h) ->
  exists miss clear hit,
    enqueued (invoke_all (bounce_calls b)) h
    = [AccIntersectRays (rays_buffer_ (incoming_idx b)) (ray_counter_buffer_ (incoming_idx b))
         (num_pixels (this h)) hits_buffer_;
       ExecuteKernel miss (num_pixels (this h));
       ExecuteKernel clear 1;
       ExecuteKernel hit (num_pixels (this h))]
    /\ (program miss = miss_cl
        /\ arguments miss !! args.Miss.kRayBuffer
           = Some (ArgMem (rays_buffer_ (incoming_idx b)))
        /\ arguments miss !! args.Miss.kRayCounterBuffer
           = Some (ArgMem (ray_counter_buffer_ (incoming_idx b)))
        /\ arguments miss !! args.Miss.kPixelIndicesBuffer
           = Some (ArgMem (pixel_indices_buffer_ (incoming_idx b))))
    /\ (program clear = clear_counter_cl
        /\ arguments clear !! 0%nat = Some (ArgMem (ray_counter_buffer_ (outgoing_idx b))))
    /\ (program hit = hit_surface_cl
        /\ arguments hit !! args.HitSurface.kBounce = Some (ArgUInt b)
        /\ arguments hit !! args.HitSurface.kIncomingRayCounterBuffer
           = Some (ArgMem (ray_counter_buffer_ (incoming_idx b)))
        /\ arguments hit !! args.HitSurface.kOutgoingRayCounterBuffer
           = Some (ArgMem (ray_counter_buffer_ (outgoing_idx b)))
        /\ arguments hit !! args.HitSurface.kOutgoingRayBuffer
           = Some (ArgMem (rays_buffer_ (outgoing_idx b)))).
Proof.
  destruct_host h. intros []. simpl_members. bounce_step.
  do 3 eexists. split; [reflexivity|].
  rewrite !program_SetArgument.
  repeat split; try assumption; solve_lookup.
Qed.

(** Bounce [b] of a frame: what was enqueued before it, its four commands,
    and what follows. *)
Lemma frame_log_at_bounce (h : host) (b : Z) :
  bound (this h) -> 0 <= b < max_bounces_ (this h) ->
  exists hb post,
    bound (this hb)
    /\ num_pixels (this hb) = num_pixels (this h)
    /\ enqueued Integrate h
       = enqueued (invoke_all (SGenerateRays
                                 :: flat_map bounce_calls (bounces_from 0 (Z.to_nat b)))) h
           ++ enqueued (invoke_all (bounce_calls b)) hb ++ post.
Proof.
  intros Hb Hrange.
  pose proof (bound_max_bounces _ Hb) as Hmax.
  set (pre := SGenerateRays :: flat_map bounce_calls (bounces_from 0 (Z.to_nat b))).
  exists (state_after (invoke_all pre) h). eexists.
  split; [apply bound_invoke_all, Hb|].
  split; [apply num_pixels_invoke_all|].
  unfold enqueued at 1. rewrite Integrate_schedule by exact Hmax.
  rewrite (frame_schedule_split _ b) by exact Hrange.
  fold pre. fold (enqueued (invoke_all (pre ++ bounce_calls b ++
    flat_map bounce_calls (bounces_from (b + 1) (Z.to_nat (max_bounces_ (this h) - b - 1)))
    ++ [SAdvanceSampleCount; SResolveRadiance])) h).
  rewrite !enqueued_invoke_all_app. reflexivity.
Qed.

(** ** Generation writes stream 0 *)

Lemma raygen_kernel_invoke (s : stage_call) (h : host) :
  raygen_kernel_ (this (state_after (invoke s) h)) = raygen_kernel_ (this h).
Proof. destruct_host h. destruct s; reflexivity. Qed.

Lemma raygen_kernel_invoke_all (ss : list stage_call) (h : host) :
  raygen_kernel_ (this (state_after (invoke_all ss) h)) = raygen_kernel_ (this h).
Proof.
  revert h. induction ss as [|s ss IH]; intros h; cbn [invoke_all].
  - reflexivity.
  - rewrite state_after_bind, IH. apply raygen_kernel_invoke.
Qed.

Lemma enqueued_generation (h : host) :
  enqueued (invoke_all [SGenerateRays]) h
  = [ExecuteKernel (raygen_kernel_ (this h)) (num_pixels (this h))].
Proof. destruct_host h. reflexivity. Qed.

(** C10: in every state the integrator can reach (built, then any calls of
    [Reset], [SetCameraData], [SetSceneData] and [Integrate]), the ray
    generation kernel still has its three outputs bound to the ray buffer,
    ray counter and pixel-index buffer of index 0, and a frame leaves that
    kernel as it is.  The first command of every frame is that kernel's
    dispatch, and when there is a bounce, the next two read stream 0: the
    intersection and the miss-shading dispatch of bounce 0. *)
Theorem raygen_outputs_fixed (h : host) :
  reachable h ->
  let k := raygen_kernel_ (this h) in
  let n := num_pixels (this h) in
  program k = raygeneration_cl
  /\ arguments k !! args.Raygen.kRayBuffer = Some (ArgMem (rays_buffer_ 0))
  /\ arguments k !! args.Raygen.kRayCounterBuffer = Some (ArgMem (ray_counter_buffer_ 0))
  /\ arguments k !! args.Raygen.kPixelIndicesBuffer
     = Some (ArgMem (pixel_indices_buffer_ 0))
  /\ raygen_kernel_ (this (state_after Integrate h)) = k
  /\ exists rest,
       enqueued Integrate h = ExecuteKernel k n :: rest
       /\ (0 < max_bounces_ (this h) ->
           exists miss rest',
             rest = AccIntersectRays (rays_buffer_ 0) (ray_counter_buffer_ 0) n hits_buffer_
                      :: ExecuteKernel miss n :: rest'
             /\ program miss = miss_cl
             /\ arguments miss !! args.Miss.kRayBuffer = Some (ArgMem (rays_buffer_ 0))
             /\ arguments miss !! args.Miss.kRayCounterBuffer
                = Some (ArgMem (ray_counter_buffer_ 0))
             /\ arguments miss !! args.Miss.kPixelIndicesBuffer
                = Some (ArgMem (pixel_indices_buffer_ 0))).
Proof.
  intros Hr. apply reachable_bound in Hr.
  pose proof (bound_max_bounces _ Hr) as Hmax.
  cbn zeta.
  split; [apply Hr|]. split; [apply Hr|]. split; [apply Hr|]. split; [apply Hr|].
  split.
  { unfold state_after. rewrite Integrate_schedule by exact Hmax.
    apply raygen_kernel_invoke_all. }
  destruct (Z_lt_le_dec 0 (max_bounces_ (this h))) as [Hpos|Hzero].
  - destruct (frame_log_at_bounce h 0 Hr ltac:(lia)) as (hb & post & Hhb & Hn & Hlog).
    destruct (bounce_log 0 hb Hhb) as (miss & clear & hit & Hbounce & Hmiss & _).
    change (Z.to_nat 0) with 0%nat in Hlog. change (bounces_from 0 0) with (@nil Z) in Hlog.
    cbn [flat_map] in Hlog. rewrite enqueued_generation, Hbounce, Hn in Hlog.
    rewrite Hlog. cbn [app]. eexists. split; [reflexivity|].
    intros _. exists miss. eexists. split; [reflexivity|]. exact Hmiss.
  - unfold enqueued at 1. rewrite Integrate_schedule by exact Hmax.
    unfold frame_schedule. cbn [invoke_all invoke].
    fold (enqueued (bind GenerateRays (fun _ => invoke_all
      (flat_map bounce_calls (bounces_from 0 (Z.to_nat (max_bounces_ (this h))))
       ++ [SAdvanceSampleCount; SResolveRadiance]))) h).
    rewrite enqueued_bind.
    replace (enqueued GenerateRays h)
      with [ExecuteKernel (raygen_kernel_ (this h)) (num_pixels (this h))]
      by (destruct_host h; reflexivity).
    cbn [app]. eexists. split; [reflexivity|]. intros Hpos. lia.
Qed.

Lemma raygen_outputs_fixed_witness :
  arguments (raygen_kernel_
               (this (state_after (perform CallIntegrate)
                        (state_after (perform CallReset)
                           (state_after (perform CallIntegrate) (sample_host 2))))))
    !! args.Raygen.kRayBuffer
  = Some (ArgMem (rays_buffer_ 0)).
Proof.
  refine (proj1 (proj2 (raygen_outputs_fixed _ _))).
  do 3 apply reachable_call. apply sample_host_reachable. lia.
Defined.

(** ** Running the command stream *)

Lemma run_app (stage : command -> device -> device) (l1 l2 : list command) (d : device) :
  run stage (l1 ++ l2) d = run stage l2 (run stage l1 d).
Proof. unfold run. apply fold_left_app. Qed.

Lemma exec_clear_counter (stage : command -> device -> device) (k : CLKernel) (b : buffer) (d : device) :
  program k = clear_counter_cl -> arguments k !! 0%nat = Some (ArgMem b) ->
  exec stage (ExecuteKernel k 1) d = <[(b, 0%nat) := CUInt 0]> d.
Proof.
  intros Hp Ha. cbn [exec]. rewrite Hp. unfold run_clear_counter. rewrite Ha.
  reflexivity.
Qed.

Lemma not_hit_shading_invoke (b : Z) (s : stage_call) (h : host) :
  bound (this h) -> s <> SShadeSurfaceHits b ->
  Forall (fun c => ~ hit_shading_of b c) (enqueued (invoke s) h).
Proof.
  destruct_host h. intros [] Hs. simpl_members.
  destruct s; host_step; repeat constructor;
    intros (k & n & Hc & Hp & Ha); try discriminate;
    injection Hc as <- _; rewrite ?program_SetArgument in Hp; try congruence.
  rewrite lookup_SetArgument_eq in Ha. congruence.
Qed.

Lemma not_hit_shading_invoke_all (b : Z) (ss : list stage_call) (h : host) :
  bound (this h) -> Forall (fun s => s <> SShadeSurfaceHits b) ss ->
  Forall (fun c => ~ hit_shading_of b c) (enqueued (invoke_all ss) h).
Proof.
  revert h. induction ss as [|s ss IH]; intros h Hb Hss; cbn [invoke_all].
  - constructor.
  - inversion Hss as [|? ? Hs Hss']; subst.
    rewrite enqueued_bind. apply Forall_app. split.
    + apply not_hit_shading_invoke; assumption.
    + apply IH; [apply bound_invoke, Hb | exact Hss'].
Qed.

Lemma earlier_bounces (b : Z) (n : nat) : forall first,
  first + Z.of_nat n <= b ->
  Forall (fun s => s <> SShadeSurfaceHits b) (flat_map bounce_calls (bounces_from first n)).
Proof.
  induction n as [|n IH]; intros first Hle.
  - constructor.
  - rewrite bounces_from_S. cbn [flat_map]. apply Forall_app. split.
    + unfold bounce_calls. repeat constructor; try discriminate.
      intros [= Heq]. lia.
    + apply IH. lia.
Qed.

(** C3: for every bounce [b] of a frame, the dispatch of
    [ClearOutgoingRayCounter(b)], bound to the ray counter of index
    [(b + 1) & 1], stands in the command stream right after the miss-shading
    dispatch of bounce [b] and right before the hit-shading dispatch of
    bounce [b], which appends to that counter's stream; no hit-shading
    dispatch of bounce [b] comes earlier in the frame.  Whatever the other
    stages do to the device, when that hit-shading dispatch starts the
    outgoing counter holds 0. *)
Theorem outgoing_counter_cleared_before_hit_shading (h : host) (b : Z) :
  reachable h -> 0 <= b < max_bounces_ (this h) ->
  let n := num_pixels (this h) in
  let out := ray_counter_buffer_ (Z.land (u32 (b + 1)) 1) in
  exists pre post miss clear hit,
    enqueued Integrate h
    = pre ++ [ExecuteKernel miss n; ExecuteKernel clear 1; ExecuteKernel hit n] ++ post
    /\ (program miss = miss_cl
        /\ arguments miss !! args.Miss.kRayCounterBuffer
           = Some (ArgMem (ray_counter_buffer_ (Z.land b 1))))
    /\ (program clear = clear_counter_cl
        /\ arguments clear !! 0%nat = Some (ArgMem out))
    /\ (program hit = hit_surface_cl
        /\ arguments hit !! args.HitSurface.kBounce = Some (ArgUInt b)
        /\ arguments hit !! args.HitSurface.kOutgoingRayCounterBuffer = Some (ArgMem out))
    /\ Forall (fun c => ~ hit_shading_of b c)
         (pre ++ [ExecuteKernel miss n; ExecuteKernel clear 1])
    /\ forall (stage : command -> device -> device) (d : device),
         run stage (pre ++ [ExecuteKernel miss n; ExecuteKernel clear 1]) d
           !! (out, 0%nat) = Some (CUInt 0).
Proof.
  intros Hr Hb. apply reachable_bound in Hr. cbn zeta.
  destruct (frame_log_at_bounce h b Hr Hb) as (hb & post & Hhb & Hn & Hlog).
  destruct (bounce_log b hb Hhb)
    as (miss & clear & hit & Hbounce & (Hmp & _ & Hmc & _) & (Hcp & Hc0)
        & (Hhp & Hhb' & _ & Hho & _)).
  rewrite Hbounce, Hn in Hlog.
  set (gen := enqueued (invoke_all (SGenerateRays
                :: flat_map bounce_calls (bounces_from 0 (Z.to_nat b)))) h) in *.
  set (acc := AccIntersectRays (rays_buffer_ (incoming_idx b))
                (ray_counter_buffer_ (incoming_idx b)) (num_pixels (this h)) hits_buffer_)
    in *.
  exists (gen ++ [acc]), post, miss, clear, hit.
  split; [rewrite Hlog, <- app_assoc; reflexivity|].
  split; [split; assumption|]. split; [split; assumption|].
  split; [repeat split; assumption|]. split.
  - rewrite <- app_assoc. apply Forall_app. split.
    + apply not_hit_shading_invoke_all; [exact Hr|].
      constructor; [discriminate|]. apply earlier_bounces. lia.
    + repeat constructor; intros (k & m & Hc & Hp & Ha); try discriminate;
        injection Hc as <- _; congruence.
  - intros stage d.
    rewrite run_app. cbn [run fold_left].
    rewrite (exec_clear_counter _ _ _ _ Hcp Hc0). apply lookup_insert_eq.
Qed.

Lemma outgoing_counter_cleared_before_hit_shading_witness :
  exists pre post miss clear hit,
    enqueued Integrate (sample_host 2)
    = pre ++ [ExecuteKernel miss 16; ExecuteKernel clear 1; ExecuteKernel hit 16] ++ post
    /\ arguments clear !! 0%nat = Some (ArgMem (ray_counter_buffer_ 0))
    /\ arguments hit !! args.HitSurface.kBounce = Some (ArgUInt 1)
    /\ forall d : device,
         run (fun _ d' => d') (pre ++ [ExecuteKernel miss 16; ExecuteKernel clear 1]) d
           !! (ray_counter_buffer_ 0, 0%nat) = Some (CUInt 0).
Proof.
  destruct (outgoing_counter_cleared_before_hit_shading (sample_host 2) 1
              (sample_host_reachable 2 ltac:(lia)) ltac:(cbn; lia))
    as (pre & post & miss & clear & hit & Hlog & _ & (_ & Hc) & (_ & Hb & _) & _ & Hrun).
  exists pre, post, miss, clear, hit.
  split; [exact Hlog|]. split; [exact Hc|]. split; [exact Hb|].
  intros d. apply Hrun.
Defined.

(** ** Reset *)

Lemma lookup_fill (b : buffer) (z : cell) (ids : list nat) (d : device) (b' : buffer) (i : nat) :
  foldr (fun id d' => <[(b, id) := z]> d') d ids !! (b', i)
  = if decide (b' = b /\ i ∈ ids) then Some z else d !! (b', i).
Proof.
  induction ids as [|id ids IH]; cbn [foldr].
  - case_decide as H; [|reflexivity]. destruct H as [_ H]. inversion H.
  - destruct (decide ((b, id) = (b', i))) as [Heq|Hne].
    + injection Heq as <- <-. rewrite lookup_insert_eq.
      rewrite decide_True; [reflexivity|]. split; [reflexivity|]. constructor.
    + rewrite lookup_insert_ne by exact Hne. rewrite IH.
      destruct (decide (b' = b /\ i ∈ ids)) as [[-> Hin]|Hout].
      * rewrite decide_True; [reflexivity|]. split; [reflexivity|]. constructor. exact Hin.
      * rewrite decide_False; [reflexivity|].
        intros [-> Hin]. apply Hout. split; [reflexivity|].
        inversion Hin; subst; [congruence|assumption].
Qed.

Lemma lookup_zero_fill (b : buffer) (n : nat) (d : device) (b' : buffer) (i : nat) :
  zero_fill b n d !! (b', i)
  = if decide (b' = b /\ (i < n)%nat) then Some float4_zero else d !! (b', i).
Proof.
  unfold zero_fill. rewrite lookup_fill.
  destruct (decide (b' = b /\ i ∈ seq 0 n)) as [[-> Hin]|Hout].
  - rewrite decide_True; [reflexivity|]. split; [reflexivity|].
    apply elem_of_seq in Hin. lia.
  - rewrite decide_False; [reflexivity|]. intros [-> Hlt]. apply Hout.
    split; [reflexivity|]. apply elem_of_seq. lia.
Qed.

Lemma exec_reset_radiance (stage : command -> device -> device)
    (k : CLKernel) (n : Z) (b : buffer) (d : device) :
  program k = reset_radiance_cl -> arguments k !! 2%nat = Some (ArgMem b) ->
  exec stage (ExecuteKernel k n) d = zero_fill b (Z.to_nat n) d.
Proof.
  intros Hp Ha. cbn [exec]. rewrite Hp. unfold run_reset_radiance. rewrite Ha.
  reflexivity.
Qed.

(** What [Reset] leaves on the host and enqueues. *)
Lemma Reset_run (h : host) :
  Reset h
  = (tt,
     {| this := with_clear_counter_kernel
                  (SetArgument 0 (ArgMem sample_counter_buffer_)) (this h);
        libc := libc h |},
     [ExecuteKernel
        (SetArgument 0 (ArgMem sample_counter_buffer_) (clear_counter_kernel_ (this h))) 1;
      ExecuteKernel (reset_kernel_ (this h)) (num_pixels (this h))]).
Proof. destruct_host h. reflexivity. Qed.

Lemma Reset_device (stage : command -> device -> device) (h : host) (d : device) :
  bound (this h) ->
  run stage (enqueued Reset h) d = reset_device (num_pixels (this h)) d.
Proof.
  intros Hb. unfold enqueued. rewrite Reset_run. cbn [snd run fold_left].
  rewrite (exec_clear_counter stage _ sample_counter_buffer_).
  - rewrite (exec_reset_radiance stage _ _ radiance_buffer_); [reflexivity| |]; apply Hb.
  - rewrite program_SetArgument. apply Hb.
  - apply lookup_SetArgument_eq.
Qed.

Lemma reset_device_idempotent (n : Z) (d : device) :
  reset_device n (reset_device n d) = reset_device n d.
Proof.
  apply map_eq. intros [b i]. unfold reset_device.
  rewrite !lookup_zero_fill.
  destruct (decide (b = radiance_buffer_ /\ (i < Z.to_nat n)%nat)) as [Hin|Hout];
    [reflexivity|].
  destruct (decide ((sample_counter_buffer_, 0%nat) = (b, i))) as [Heq|Hne].
  - rewrite <- Heq, !lookup_insert_eq. reflexivity.
  - rewrite !lookup_insert_ne by exact Hne. rewrite lookup_zero_fill.
    rewrite decide_False by exact Hout. rewrite lookup_insert_ne by exact Hne.
    reflexivity.
Qed.

(** C9: [Reset()] is idempotent.  A second [Reset()] right after a first
    leaves the host object as the first left it, and its commands leave the
    device as the first left it: the sample counter is 0 and each of the
    [width_ * height_] entries of the radiance accumulator is zero, after one
    [Reset()] as after two. *)
Theorem Reset_idempotent (stage : command -> device -> device) (h : host) (d : device) :
  reachable h ->
  let h1 := state_after Reset h in
  let d1 := run stage (enqueued Reset h) d in
  let d2 := run stage (enqueued Reset h ++ enqueued Reset h1) d in
  state_after Reset h1 = h1
  /\ d2 = d1
  /\ d1 !! (sample_counter_buffer_, 0%nat) = Some (CUInt 0)
  /\ (forall i : nat, Z.of_nat i < num_pixels (this h) ->
      d1 !! (radiance_buffer_, i) = Some float4_zero).
Proof.
  intros Hr. apply reachable_bound in Hr. cbn zeta.
  assert (Hb1 : bound (this (state_after Reset h))) by apply (bound_perform CallReset h Hr).
  assert (Hn : num_pixels (this (state_after Reset h)) = num_pixels (this h))
    by (destruct_host h; reflexivity).
  split; [|split; [|split]].
  - unfold state_after. rewrite !Reset_run. cbn [fst snd this libc].
    destruct_host h. unfold with_clear_counter_kernel. simpl_members.
    rewrite SetArgument_twice. reflexivity.
  - rewrite run_app, (Reset_device stage _ _ Hb1), (Reset_device stage _ _ Hr), Hn.
    apply reset_device_idempotent.
  - rewrite (Reset_device stage _ _ Hr). unfold reset_device.
    rewrite lookup_zero_fill, decide_False by (intros [? _]; discriminate).
    apply lookup_insert_eq.
  - intros i Hi. rewrite (Reset_device stage _ _ Hr). unfold reset_device.
    rewrite lookup_zero_fill, decide_True; [reflexivity|].
    split; [reflexivity|lia].
Qed.

Lemma Reset_idempotent_witness :
  let h := sample_host 2 in
  let d1 := run (fun _ d' => d') (enqueued Reset h) (∅ : device) in
  run (fun _ d' => d') (enqueued Reset h ++ enqueued Reset (state_after Reset h)) ∅ = d1
  /\ d1 !! (sample_counter_buffer_, 0%nat) = Some (CUInt 0)
  /\ d1 !! (radiance_buffer_, 15%nat) = Some float4_zero.
Proof.
  destruct (Reset_idempotent (fun _ d' => d') (sample_host 2) ∅
              (sample_host_reachable 2 ltac:(lia))) as (_ & H2 & Hc & Hrad).
  cbn zeta. split; [exact H2|]. split; [exact Hc|].
  apply Hrad. vm_compute. reflexivity.
Defined.

(** ** Camera data *)

(** Facts of exact arithmetic about the helpers. *)
Module ExactBasis.
Import Stdlib.Reals.Reals Stdlib.micromega.Lra.
Import Exact.
Local Open Scope R_scope.

Lemma dot_cross_left (a b : vec3 R) : dot a (cross_over reals a b) = 0.
Proof. destruct a, b. unfold dot, dot_over, cross_over. cbn. ring. Qed.

Lemma dot_cross_right (a b : vec3 R) : dot b (cross_over reals a b) = 0.
Proof. destruct a, b. unfold dot, dot_over, cross_over. cbn. ring. Qed.

Lemma dot_comm (a b : vec3 R) : dot a b = dot b a.
Proof. destruct a, b. unfold dot, dot_over. cbn. ring. Qed.

Lemma cross_length (a b : vec3 R) :
  dot (cross_over reals a b) (cross_over reals a b)
  = dot a a * dot b b - dot a b * dot a b.
Proof. destruct a, b. unfold dot, dot_over, cross_over. cbn. ring. Qed.

Lemma nonnull_length (c : vec3 R) : c <> null -> 0 < dot c c.
Proof.
  destruct c as [x y z]. unfold dot, dot_over, null. cbn. intros Hc.
  destruct (Req_dec x 0) as [Hx|Hx]; [|nra].
  destruct (Req_dec y 0) as [Hy|Hy]; [|nra].
  destruct (Req_dec z 0) as [Hz|Hz]; [|nra].
  exfalso. apply Hc. subst. reflexivity.
Qed.

Lemma normalize_unit (c : vec3 R) : c <> null -> unit_length (normalize_over reals c).
Proof.
  intros Hc. pose proof (nonnull_length c Hc) as Hpos.
  destruct c as [x y z].
  unfold unit_length, normalize_over, dot, dot_over in *. cbn in *.
  pose proof (sqrt_lt_R0 _ Hpos) as Hlen.
  pose proof (sqrt_sqrt (x * x + y * y + z * z) ltac:(lra)) as Hsq.
  set (l := sqrt (x * x + y * y + z * z)) in *. clearbody l.
  replace (x / l * (x / l) + y / l * (y / l) + z / l * (z / l))
    with ((x * x + y * y + z * z) / (l * l)) by (field; lra).
  rewrite Hsq. field. lra.
Qed.

Lemma dot_normalize (a c : vec3 R) :
  c <> null -> dot a c = 0 -> dot a (normalize_over reals c) = 0.
Proof.
  intros Hc Hac. pose proof (nonnull_length c Hc) as Hpos.
  destruct c as [x y z], a as [a1 a2 a3].
  unfold normalize_over, dot, dot_over in *. cbn in *.
  pose proof (sqrt_lt_R0 _ Hpos) as Hlen.
  set (l := sqrt (x * x + y * y + z * z)) in *. clearbody l.
  replace (a1 * (x / l) + a2 * (y / l) + a3 * (z / l))
    with ((a1 * x + a2 * y + a3 * z) / l) by (field; lra).
  rewrite Hac. field. lra.
Qed.

(** In exact arithmetic, a front vector of unit length and an up vector not
    parallel to it give an orthonormal basis. *)
Lemma basis_orthonormal (front up : vec3 R) :
  unit_length front -> cross_over reals front up <> null ->
  orthonormal front (right_over reals front up) (up_over reals front up).
Proof.
  intros Hfront Hcross. unfold up_over, right_over.
  set (c := cross_over reals front up) in *.
  pose proof (normalize_unit c Hcross) as Hright.
  pose proof (dot_normalize front c Hcross (dot_cross_left front up)) as Hfr.
  set (r := normalize_over reals c) in *.
  unfold orthonormal, unit_length in *.
  split; [exact Hfront|]. split; [exact Hright|]. split.
  - rewrite cross_length, Hright, Hfront, (dot_comm r front), Hfr. ring.
  - split; [exact Hfr|]. split; [apply dot_cross_right | apply dot_cross_left].
Qed.

Lemma front_x_unit : unit_length front_x.
Proof. unfold unit_length, dot, dot_over, front_x. cbn. lra. Qed.

Lemma front_x_not_parallel : cross_over reals front_x up_skew <> null.
Proof.
  unfold cross_over, front_x, up_skew, null. cbn. intros [= _ H _]. lra.
Qed.

Lemma up_skew_oblique : oblique front_x up_skew.
Proof. unfold oblique, dot, dot_over, front_x, up_skew. cbn. lra. Qed.

End ExactBasis.

(** C7 as the spec states it fails, in three ways.  For a camera whose front
    vector has length 2, [SetCameraData] binds that front vector and an up
    vector of squared length 4, and the right vector (0,0,1) it computed is
    bound to no slot.  For a unit front vector and the up vector (0,1,1), the
    right and up vectors have squared length 16777215 * 2^-24 in binary32,
    not 1.  For an up vector parallel to front, right and up are NaN. *)
Lemma SetCameraData_basis_not_orthonormal :
  let k := raygen_kernel_
             (this (state_after (SetCameraData long_front_camera) (sample_host 2))) in
  (arguments k !! args.Raygen.kCameraFront = Some (ArgFloat3 (float3_of_Z 2 0 0))
   /\ arguments k !! args.Raygen.kCameraUp = Some (ArgFloat3 (float3_of_Z 0 2 0))
   /\ Dot (float3_of_Z 2 0 0) (float3_of_Z 2 0 0) = F32.of_Z 4
   /\ Dot (float3_of_Z 0 2 0) (float3_of_Z 0 2 0) = F32.of_Z 4
   /\ camera_right long_front_camera = float3_of_Z 0 0 1
   /\ map_Forall (fun _ a => a <> ArgFloat3 (float3_of_Z 0 0 1)) (arguments k))
  /\ (Dot (GetFrontVector skewed_up_camera) (GetFrontVector skewed_up_camera) = F32.of_Z 1
      /\ Dot (camera_right skewed_up_camera) (camera_right skewed_up_camera)
         = S754_finite false 16777215 (-24)
      /\ Dot (camera_up skewed_up_camera) (camera_up skewed_up_camera)
         = S754_finite false 16777215 (-24)
      /\ F32.of_Z 1 = S754_finite false 8388608 (-23))
  /\ (camera_right parallel_up_camera = float3_nan
      /\ camera_up parallel_up_camera = float3_nan).
Proof.
  cbn zeta. repeat apply conj; try (vm_compute; reflexivity).
  apply map_Forall_to_list. vm_compute. repeat constructor; discriminate.
Qed.

(** What [SetCameraData] binds: the camera position, the front vector as
    given, up = Cross(right, front) with right = Normalize(Cross(front,
    up-input)), the frame count, the next value of [rand()], the aperture and
    the focus distance, in the ray-generation kernel.  No other argument slot
    and no other kernel changes, and nothing is enqueued. *)
Lemma SetCameraData_bindings (camera : Camera) (h : host) :
  let right := Normalize (Cross (GetFrontVector camera) (GetUpVector camera)) in
  let up := Cross right (GetFrontVector camera) in
  let h' := state_after (SetCameraData camera) h in
  let k := raygen_kernel_ (this h') in
  enqueued (SetCameraData camera) h = []
  /\ (forall (stage : command -> device -> device) (d : device),
        run stage (enqueued (SetCameraData camera) h) d = d)
  /\ this h' = with_raygen_kernel (fun _ => k) (this h)
  /\ program k = program (raygen_kernel_ (this h))
  /\ arguments k !! args.Raygen.kCameraPos = Some (ArgFloat3 (GetOrigin camera))
  /\ arguments k !! args.Raygen.kCameraFront = Some (ArgFloat3 (GetFrontVector camera))
  /\ arguments k !! args.Raygen.kCameraUp = Some (ArgFloat3 up)
  /\ arguments k !! args.Raygen.kFrameCount = Some (ArgUInt (GetFrameCount camera))
  /\ arguments k !! args.Raygen.kFrameSeed
     = Some (ArgUInt (u32 (rand_values (libc h) (rand_calls (libc h)))))
  /\ rand_calls (libc h') = S (rand_calls (libc h))
  /\ arguments k !! args.Raygen.kAperture = Some (ArgFloat (GetAperture camera))
  /\ arguments k !! args.Raygen.kFocusDistance
     = Some (ArgFloat (GetFocusDistance camera))
  /\ (forall j : nat, (j < 2 \/ 8 < j)%nat ->
        arguments k !! j = arguments (raygen_kernel_ (this h)) !! j).
Proof.
  destruct_host h. destruct p as [values calls]. host_step.
  repeat split; try solve_lookup.
  intros j Hj.
  rewrite !lookup_SetArgument_ne; [reflexivity|..];
    unfold args.Raygen.kCameraPos, args.Raygen.kCameraFront, args.Raygen.kCameraUp,
      args.Raygen.kFrameCount, args.Raygen.kFrameSeed, args.Raygen.kAperture,
      args.Raygen.kFocusDistance; lia.
Qed.

(** [Cross] and [Normalize] are the helpers over binary32. *)
Lemma camera_formulas (front up : float3) :
  vec_of (Normalize (Cross front up)) = right_over binary32 (vec_of front) (vec_of up)
  /\ vec_of (Cross (Normalize (Cross front up)) front)
     = up_over binary32 (vec_of front) (vec_of up).
Proof.
  destruct front as [f1 f2 f3], up as [u1 u2 u3].
  cbv [vec_of Normalize Cross Length Dot up_over right_over normalize_over cross_over
       dot_over binary32 a_add a_sub a_mul a_div a_sqrt vx vy vz fx fy fz].
  split; reflexivity.
Qed.

(** C7, amended: for every camera, [SetCameraData] evaluates in binary32, on
    the front vector as given, right = Normalize(Cross(front, up-input)) and
    up = Cross(right, front); in exact arithmetic these formulas give an
    orthonormal basis (front, right, up) whenever front has unit length and
    is not parallel to the input up vector, which need not be orthogonal to
    front.  It binds to the ray-generation kernel the camera position, the
    front vector, that up vector, the frame count, the next value of
    [rand()], the aperture and the focus distance; no other argument slot
    and no other kernel changes and nothing is enqueued, so device memory is
    untouched. *)
Theorem SetCameraData_basis (camera : Camera) (h : host) :
  let front := GetFrontVector camera in
  let right := Normalize (Cross front (GetUpVector camera)) in
  let up := Cross right front in
  let h' := state_after (SetCameraData camera) h in
  let k := raygen_kernel_ (this h') in
  (vec_of right = right_over binary32 (vec_of front) (vec_of (GetUpVector camera))
   /\ vec_of up = up_over binary32 (vec_of front) (vec_of (GetUpVector camera)))
  /\ (forall f u,
        Exact.unit_length f -> cross_over Exact.reals f u <> Exact.null ->
        Exact.orthonormal f (right_over Exact.reals f u) (up_over Exact.reals f u))
  /\ (enqueued (SetCameraData camera) h = []
      /\ (forall (stage : command -> device -> device) (d : device),
            run stage (enqueued (SetCameraData camera) h) d = d)
      /\ this h' = with_raygen_kernel (fun _ => k) (this h)
      /\ program k = program (raygen_kernel_ (this h))
      /\ arguments k !! args.Raygen.kCameraPos = Some (ArgFloat3 (GetOrigin camera))
      /\ arguments k !! args.Raygen.kCameraFront = Some (ArgFloat3 front)
      /\ arguments k !! args.Raygen.kCameraUp = Some (ArgFloat3 up)
      /\ arguments k !! args.Raygen.kFrameCount = Some (ArgUInt (GetFrameCount camera))
      /\ arguments k !! args.Raygen.kFrameSeed
         = Some (ArgUInt (u32 (rand_values (libc h) (rand_calls (libc h)))))
      /\ rand_calls (libc h') = S (rand_calls (libc h))
      /\ arguments k !! args.Raygen.kAperture = Some (ArgFloat (GetAperture camera))
      /\ arguments k !! args.Raygen.kFocusDistance
         = Some (ArgFloat (GetFocusDistance camera))
      /\ (forall j : nat, (j < 2 \/ 8 < j)%nat ->
            arguments k !! j = arguments (raygen_kernel_ (this h)) !! j)).
Proof.
  cbn zeta. split; [split; apply camera_formulas|].
  split; [apply ExactBasis.basis_orthonormal|].
  apply SetCameraData_bindings.
Qed.

Lemma SetCameraData_basis_witness :
  Exact.oblique Exact.front_x Exact.up_skew
  /\ Exact.orthonormal Exact.front_x
       (right_over Exact.reals Exact.front_x Exact.up_skew)
       (up_over Exact.reals Exact.front_x Exact.up_skew).
Proof.
  split; [apply ExactBasis.up_skew_oblique|].
  apply (proj1 (proj2 (SetCameraData_basis skewed_up_camera (sample_host 2)))).
  - apply ExactBasis.front_x_unit.
  - apply ExactBasis.front_x_not_parallel.
Defined.

(** ** Construction *)

(** C4 fails on the code: the constructor tests the creation status twice
    only, after the throughput buffer and after the output image.  Whenever
    those two creations and the kernel builds succeed, construction succeeds,
    whatever status the creation of the radiance buffer, the ray streams,
    the counters, the hit buffer or the sampler tables returned. *)
Theorem construction_tests_two_statuses (cl : platform) (width height max_bounces : Z)
    (p : process) :
  create_status cl throughputs_buffer_ = CL_SUCCESS ->
  create_status cl output_image_ = CL_SUCCESS ->
  (forall k, kernel_failure cl k = None) ->
  exists h out, PathTraceIntegrator_new cl width height max_bounces p = inr (h, out).
Proof.
  intros Ht Hi Hk. unfold PathTraceIntegrator_new.
  rewrite Ht, Hi. cbn [Z.eqb CL_SUCCESS negb load_kernels]. rewrite !Hk.
  host_step. eexists. eexists. reflexivity.
Qed.

Lemma construction_tests_two_statuses_witness :
  create_status (failing_platform radiance_buffer_ CL_MEM_OBJECT_ALLOCATION_FAILURE)
    radiance_buffer_ = -4
  /\ exists h out,
       PathTraceIntegrator_new
         (failing_platform radiance_buffer_ CL_MEM_OBJECT_ALLOCATION_FAILURE)
         4 4 2 sample_process = inr (h, out).
Proof.
  split; [reflexivity|].
  apply construction_tests_two_statuses; [reflexivity | reflexivity | reflexivity].
Defined.

(** When the throughput buffer is the one that fails, the exception names
    the radiance buffer. *)
Example construction_names_radiance_buffer :
  PathTraceIntegrator_new
    (failing_platform throughputs_buffer_ CL_MEM_OBJECT_ALLOCATION_FAILURE)
    4 4 2 sample_process
  = inl (CLException "Failed to create radiance buffer" (-4)).
Proof. reflexivity. Qed.

(** * Further properties of the integrator *)

(** ** Outcomes of the constructor *)

(** The order in which the constructor builds its kernels. *)
Definition kernel_load_order : list kernel_program :=
  [reset_radiance_cl; raygeneration_cl; miss_cl; hit_surface_cl;
   clear_counter_cl; increment_counter_cl; resolve_radiance_cl].

Lemma load_kernels_None (cl : platform) (ps : list kernel_program) :
  load_kernels cl ps = None <-> Forall (fun p => kernel_failure cl p = None) ps.
Proof.
  induction ps as [|p ps IH]; cbn [load_kernels].
  - split; [constructor|reflexivity].
  - destruct (kernel_failure cl p) as [e|] eqn:Hp.
    + split; [discriminate|]. intros H. inversion H; congruence.
    + rewrite IH. split; [constructor; assumption|]. intros H. inversion H; assumption.
Qed.

Lemma load_kernels_first (cl : platform) (pre post : list kernel_program)
    (p : kernel_program) (e : exn) :
  Forall (fun q => kernel_failure cl q = None) pre ->
  kernel_failure cl p = Some e ->
  load_kernels cl (pre ++ p :: post) = Some e.
Proof.
  intros Hpre Hp. induction Hpre as [|q pre Hq _ IH]; cbn [app load_kernels].
  - rewrite Hp. reflexivity.
  - rewrite Hq. exact IH.
Qed.

Lemma kernel_load_order_complete (cl : platform) :
  Forall (fun p => kernel_failure cl p = None) kernel_load_order
  <-> forall k, kernel_failure cl k = None.
Proof.
  split.
  - intros H k. rewrite Forall_forall in H. apply H.
    unfold kernel_load_order. destruct k; set_solver.
  - intros H. apply Forall_forall. intros k _. apply H.
Qed.

Lemma new_after_creation (cl : platform) (width height max_bounces : Z) (p : process) :
  create_status cl throughputs_buffer_ = CL_SUCCESS ->
  create_status cl output_image_ = CL_SUCCESS ->
  PathTraceIntegrator_new cl width height max_bounces p
  = match load_kernels cl kernel_load_order with
    | Some e => inl e
    | None =>
        inr (built (PathTraceIntegrator_new sample_platform width height max_bounces p),
             enqueued Reset
               (built (PathTraceIntegrator_new sample_platform width height max_bounces p)))
    end.
Proof.
  intros Ht Hi. unfold PathTraceIntegrator_new.
  rewrite Ht, Hi. cbn [Z.eqb CL_SUCCESS negb].
  change [reset_radiance_cl; raygeneration_cl; miss_cl; hit_surface_cl;
          clear_counter_cl; increment_counter_cl; resolve_radiance_cl]
    with kernel_load_order.
  destruct (load_kernels cl kernel_load_order); reflexivity.
Qed.

(** X1: construction succeeds exactly when the creation of the throughput
    buffer and of the output image return [CL_SUCCESS] and every kernel is
    built without an exception; the statuses of the other nine creations
    play no part. *)
Theorem construction_succeeds_iff (cl : platform) (width height max_bounces : Z)
    (p : process) :
  (exists h out, PathTraceIntegrator_new cl width height max_bounces p = inr (h, out))
  <-> (create_status cl throughputs_buffer_ = CL_SUCCESS
       /\ create_status cl output_image_ = CL_SUCCESS
       /\ forall k, kernel_failure cl k = None).
Proof.
  split.
  - intros (h & out & Hnew). unfold PathTraceIntegrator_new in Hnew.
    destruct (create_status cl throughputs_buffer_ =? CL_SUCCESS) eqn:Ht;
      [|discriminate].
    destruct (create_status cl output_image_ =? CL_SUCCESS) eqn:Hi; [|discriminate].
    cbn [negb] in Hnew.
    change [reset_radiance_cl; raygeneration_cl; miss_cl; hit_surface_cl;
            clear_counter_cl; increment_counter_cl; resolve_radiance_cl]
      with kernel_load_order in Hnew.
    destruct (load_kernels cl kernel_load_order) eqn:Hk; [discriminate|].
    apply Z.eqb_eq in Ht, Hi. split; [exact Ht|]. split; [exact Hi|].
    apply kernel_load_order_complete, load_kernels_None, Hk.
  - intros (Ht & Hi & Hk). rewrite new_after_creation by assumption.
    apply kernel_load_order_complete, load_kernels_None in Hk. rewrite Hk.
    eexists. eexists. reflexivity.
Qed.

(** X2: whenever the creation of the throughput buffer fails, with any
    status [s], the constructor throws [CLException] with the message
    "Failed to create radiance buffer" and [s], whatever the other creations
    and kernel builds would have returned. *)
Theorem construction_buffer_failure (cl : platform) (width height max_bounces : Z)
    (p : process) :
  create_status cl throughputs_buffer_ <> CL_SUCCESS ->
  PathTraceIntegrator_new cl width height max_bounces p
  = inl (CLException "Failed to create radiance buffer"
           (create_status cl throughputs_buffer_)).
Proof.
  intros Ht. unfold PathTraceIntegrator_new.
  apply Z.eqb_neq in Ht. rewrite Ht. reflexivity.
Qed.

Lemma construction_buffer_failure_witness :
  PathTraceIntegrator_new
    (mk_platform (fun b => if decide (b = throughputs_buffer_) then -61 else -4)
       (fun _ => Some (CLException "build" (-11))))
    640 480 5 sample_process
  = inl (CLException "Failed to create radiance buffer" (-61)).
Proof.
  refine (construction_buffer_failure
            (mk_platform (fun b => if decide (b = throughputs_buffer_) then -61 else -4)
               (fun _ => Some (CLException "build" (-11))))
            640 480 5 sample_process _).
  vm_compute. discriminate.
Defined.

(** X3: when the throughput buffer is created and the creation of the output
    image fails with status [s], the constructor throws [CLException] with
    the message "Failed to create output image" and [s], before any kernel
    is built. *)
Theorem construction_image_failure (cl : platform) (width height max_bounces : Z)
    (p : process) :
  create_status cl throughputs_buffer_ = CL_SUCCESS ->
  create_status cl output_image_ <> CL_SUCCESS ->
  PathTraceIntegrator_new cl width height max_bounces p
  = inl (CLException "Failed to create output image" (create_status cl output_image_)).
Proof.
  intros Ht Hi. unfold PathTraceIntegrator_new.
  apply Z.eqb_neq in Hi. rewrite Ht, Hi. reflexivity.
Qed.

Lemma construction_image_failure_witness :
  PathTraceIntegrator_new
    (mk_platform (fun b => if decide (b = output_image_) then -38 else CL_SUCCESS)
       (fun _ => Some (CLException "build" (-11))))
    640 480 5 sample_process
  = inl (CLException "Failed to create output image" (-38)).
Proof.
  refine (construction_image_failure
            (mk_platform (fun b => if decide (b = output_image_) then -38 else CL_SUCCESS)
               (fun _ => Some (CLException "build" (-11))))
            640 480 5 sample_process _ _).
  - reflexivity.
  - vm_compute. discriminate.
Defined.

(** X4: when both tested creations succeed, the exception of the first
    kernel that fails to build, in the order reset, ray generation, miss, hit
    surface, clear counter, increment counter, resolve, is the one thrown;
    failures of later kernels are never reached. *)
Theorem construction_first_kernel_failure (cl : platform) (width height max_bounces : Z)
    (p : process) (pre post : list kernel_program) (k : kernel_program) (e : exn) :
  create_status cl throughputs_buffer_ = CL_SUCCESS ->
  create_status cl output_image_ = CL_SUCCESS ->
  kernel_load_order = pre ++ k :: post ->
  Forall (fun q => kernel_failure cl q = None) pre ->
  kernel_failure cl k = Some e ->
  PathTraceIntegrator_new cl width height max_bounces p = inl e.
Proof.
  intros Ht Hi Horder Hpre Hk. rewrite new_after_creation by assumption.
  rewrite Horder, (load_kernels_first cl pre post k e Hpre Hk). reflexivity.
Qed.

Lemma construction_first_kernel_failure_witness :
  PathTraceIntegrator_new
    (mk_platform (fun _ => CL_SUCCESS)
       (fun k => match k with
                 | miss_cl => Some (CLException "miss" (-11))
                 | resolve_radiance_cl => Some (CLException "resolve" (-45))
                 | _ => None
                 end))
    640 480 5 sample_process
  = inl (CLException "miss" (-11)).
Proof.
  apply (construction_first_kernel_failure _ 640 480 5 sample_process
           [reset_radiance_cl; raygeneration_cl]
           [hit_surface_cl; clear_counter_cl; increment_counter_cl; resolve_radiance_cl]
           miss_cl);
    try reflexivity.
  repeat constructor.
Defined.

Lemma new_inr_built (cl : platform) (width height max_bounces : Z) (p : process)
    (h : host) (out : list command) :
  PathTraceIntegrator_new cl width height max_bounces p = inr (h, out) ->
  h = built (PathTraceIntegrator_new sample_platform width height max_bounces p)
  /\ out = enqueued Reset h.
Proof.
  intros Hnew. unfold PathTraceIntegrator_new in Hnew.
  destruct (negb (create_status cl throughputs_buffer_ =? CL_SUCCESS)); [discriminate|].
  destruct (negb (create_status cl output_image_ =? CL_SUCCESS)); [discriminate|].
  destruct (load_kernels cl _); [discriminate|].
  revert Hnew. host_step. intros [= <- <-]. split; reflexivity.
Qed.

(** X5: a successful construction stores the given resolution, draws no
    random number, and enqueues exactly the two dispatches of [Reset()]: the
    clear-counter kernel, whose only bound argument is the sample counter,
    over one work-item, then the reset kernel, bound to the resolution and
    the radiance buffer, over [width * height] work-items (32-bit
    product). *)
Theorem construction_result (cl : platform) (width height max_bounces : Z) (p : process)
    (h : host) (out : list command) :
  PathTraceIntegrator_new cl width height max_bounces p = inr (h, out) ->
  width_ (this h) = width /\ height_ (this h) = height
  /\ max_bounces_ (this h) = max_bounces /\ libc h = p
  /\ out = [ExecuteKernel (clear_counter_kernel_ (this h)) 1;
            ExecuteKernel (reset_kernel_ (this h)) (u32 (width * height))]
  /\ program (clear_counter_kernel_ (this h)) = clear_counter_cl
  /\ arguments (clear_counter_kernel_ (this h)) = {[ 0%nat := ArgMem sample_counter_buffer_ ]}
  /\ program (reset_kernel_ (this h)) = reset_radiance_cl
  /\ arguments (reset_kernel_ (this h)) !! 0%nat = Some (ArgUInt width)
  /\ arguments (reset_kernel_ (this h)) !! 1%nat = Some (ArgUInt height)
  /\ arguments (reset_kernel_ (this h)) !! 2%nat = Some (ArgMem radiance_buffer_).
Proof.
  intros Hnew. apply new_inr_built in Hnew as [-> ->].
  repeat split.
Qed.

Lemma construction_result_witness :
  exists h,
    PathTraceIntegrator_new sample_platform 640 480 5 sample_process
    = inr (h, [ExecuteKernel (clear_counter_kernel_ (this h)) 1;
               ExecuteKernel (reset_kernel_ (this h)) 307200]).
Proof.
  exists (built (PathTraceIntegrator_new sample_platform 640 480 5 sample_process)).
  destruct (construction_result sample_platform 640 480 5 sample_process _ _ eq_refl)
    as (_ & _ & _ & _ & Hout & _).
  reflexivity.
Defined.

(** X6: construction binds no camera, no scene and no stream.  Right after
    it the argument tables are exactly these: the ray-generation kernel holds
    the resolution, its three stream-0 outputs and the throughput buffer; the
    miss kernel the hit, throughput and radiance buffers; the hit-surface
    kernel the hit, throughput and radiance buffers, the resolution, the
    sample counter and the three sampler tables; the increment kernel
    nothing.  So the seven camera slots, the triangle, material and
    environment slots, the three stream slots of the miss kernel and the six
    stream slots and the bounce slot of the hit-surface kernel are all
    unset. *)
Theorem construction_leaves_unbound (cl : platform) (width height max_bounces : Z)
    (p : process) (h : host) (out : list command) :
  PathTraceIntegrator_new cl width height max_bounces p = inr (h, out) ->
  (arguments (raygen_kernel_ (this h))
   = list_to_map
       [(args.Raygen.kWidth, ArgUInt width);
        (args.Raygen.kHeight, ArgUInt height);
        (args.Raygen.kRayBuffer, ArgMem (rays_buffer_ 0));
        (args.Raygen.kRayCounterBuffer, ArgMem (ray_counter_buffer_ 0));
        (args.Raygen.kPixelIndicesBuffer, ArgMem (pixel_indices_buffer_ 0));
        (args.Raygen.kThroughputsBuffer, ArgMem throughputs_buffer_)]
   /\ arguments (miss_kernel_ (this h))
      = list_to_map
          [(args.Miss.kHitsBuffer, ArgMem hits_buffer_);
           (args.Miss.kThroughputsBuffer, ArgMem throughputs_buffer_);
           (args.Miss.kRadianceBuffer, ArgMem radiance_buffer_)]
   /\ arguments (hit_surface_kernel_ (this h))
      = list_to_map
          [(args.HitSurface.kHitsBuffer, ArgMem hits_buffer_);
           (args.HitSurface.kThroughputsBuffer, ArgMem throughputs_buffer_);
           (args.HitSurface.kRadianceBuffer, ArgMem radiance_buffer_);
           (args.HitSurface.kWidth, ArgUInt width);
           (args.HitSurface.kHeight, ArgUInt height);
           (args.HitSurface.kSampleCounterBuffer, ArgMem sample_counter_buffer_);
           (args.HitSurface.kSobolBuffer, ArgMem sampler_sobol_buffer_);
           (args.HitSurface.kScramblingTileBuffer, ArgMem sampler_scrambling_tile_buffer_);
           (args.HitSurface.kRankingTileBuffer, ArgMem sampler_ranking_tile_buffer_)]
   /\ arguments (increment_counter_kernel_ (this h)) = ∅)
  /\ (forall j : nat, (2 <= j <= 8)%nat -> arguments (raygen_kernel_ (this h)) !! j = None)
  /\ (arguments (miss_kernel_ (this h)) !! args.Miss.kRayBuffer = None
      /\ arguments (miss_kernel_ (this h)) !! args.Miss.kRayCounterBuffer = None
      /\ arguments (miss_kernel_ (this h)) !! args.Miss.kPixelIndicesBuffer = None
      /\ arguments (miss_kernel_ (this h)) !! args.Miss.kIblTextureBuffer = None)
  /\ (arguments (hit_surface_kernel_ (this h)) !! args.HitSurface.kIncomingRayBuffer = None
      /\ arguments (hit_surface_kernel_ (this h)) !! args.HitSurface.kIncomingRayCounterBuffer
         = None
      /\ arguments (hit_surface_kernel_ (this h))
           !! args.HitSurface.kIncomingPixelIndicesBuffer = None
      /\ arguments (hit_surface_kernel_ (this h)) !! args.HitSurface.kOutgoingRayBuffer = None
      /\ arguments (hit_surface_kernel_ (this h)) !! args.HitSurface.kOutgoingRayCounterBuffer
         = None
      /\ arguments (hit_surface_kernel_ (this h))
           !! args.HitSurface.kOutgoingPixelIndicesBuffer = None
      /\ arguments (hit_surface_kernel_ (this h)) !! args.HitSurface.kBounce = None
      /\ arguments (hit_surface_kernel_ (this h)) !! args.HitSurface.kTrianglesBuffer = None
      /\ arguments (hit_surface_kernel_ (this h)) !! args.HitSurface.kMaterialsBuffer = None).
Proof.
  intros Hnew. apply new_inr_built in Hnew as [-> _].
  split; [repeat apply conj; reflexivity|].
  split; [|split; repeat apply conj; reflexivity].
  intros j Hj.
  assert (Hcases : (j = 2 \/ j = 3 \/ j = 4 \/ j = 5 \/ j = 6 \/ j = 7 \/ j = 8)%nat)
    by lia.
  repeat (destruct Hcases as [Hc|Hcases]; [subst j; reflexivity|]).
  subst j. reflexivity.
Qed.

Lemma construction_leaves_unbound_witness :
  arguments (raygen_kernel_ (this (sample_host 2))) !! args.Raygen.kFrameSeed = None
  /\ arguments (miss_kernel_ (this (sample_host 2))) !! args.Miss.kRayCounterBuffer = None
  /\ arguments (hit_surface_kernel_ (this (sample_host 2)))
       !! args.HitSurface.kOutgoingRayBuffer = None
  /\ arguments (increment_counter_kernel_ (this (sample_host 2))) = ∅.
Proof.
  destruct (construction_leaves_unbound sample_platform 4 4 2 sample_process
              (sample_host 2) _ eq_refl)
    as ((_ & _ & _ & Hincr) & Hcam & (_ & Hmiss & _) & (_ & _ & _ & Hhit & _)).
  split; [apply Hcam; cbv; lia|]. split; [exact Hmiss|]. split; [exact Hhit | exact Hincr].
Defined.

(** ** Sizes and hand-over inside a frame *)

(** The work size a command must have on an integrator of [n] pixels: one
    work-item for the two counter kernels, [n] for every other kernel and for
    the intersection, which writes the hit buffer. *)
Definition well_sized (n : Z) (c : command) : Prop :=
  match c with
  | ExecuteKernel k m =>
      match program k with
      | clear_counter_cl | increment_counter_cl => m = 1
      | _ => m = n
      end
  | AccIntersectRays _ _ m hits => m = n /\ hits = hits_buffer_
  | _ => True
  end.

Lemma well_sized_invoke (s : stage_call) (h : host) :
  bound (this h) -> Forall (well_sized (num_pixels (this h))) (enqueued (invoke s) h).
Proof.
  destruct_host h. intros []. simpl_members.
  destruct s; host_step; repeat constructor; cbn [well_sized];
    rewrite ?program_SetArgument;
    repeat match goal with H : program _ = _ |- _ => rewrite H end; reflexivity.
Qed.

Lemma well_sized_invoke_all (ss : list stage_call) (h : host) :
  bound (this h) ->
  Forall (well_sized (num_pixels (this h))) (enqueued (invoke_all ss) h).
Proof.
  revert h. induction ss as [|s ss IH]; intros h Hb; cbn [invoke_all].
  - constructor.
  - rewrite enqueued_bind. apply Forall_app. split.
    + apply well_sized_invoke, Hb.
    + replace (num_pixels (this h))
        with (num_pixels (this (state_after (invoke_all [s]) h))).
      * replace (state_after (invoke s) h) with (state_after (invoke_all [s]) h).
        -- apply IH. apply bound_invoke_all, Hb.
        -- cbn [invoke_all]. rewrite state_after_bind. reflexivity.
      * apply num_pixels_invoke_all.
Qed.

Lemma frame_length (h : host) :
  bound (this h) ->
  length (enqueued Integrate h) = (4 * Z.to_nat (max_bounces_ (this h)) + 6)%nat.
Proof.
  intros Hb. pose proof (bound_max_bounces _ Hb) as Hmax.
  rewrite <- (length_map operation_of).
  unfold enqueued. rewrite Integrate_schedule by exact Hmax.
  fold (enqueued (invoke_all (frame_schedule (max_bounces_ (this h)))) h).
  rewrite operations_invoke_all, frame_operations by exact Hb.
  cbn [length]. rewrite length_app. cbn [length].
  assert (Hlen : forall bs : list Z,
            length (flat_map (fun _ => bounce_operations) bs) = (4 * length bs)%nat).
  { induction bs as [|b bs IH]; cbn [flat_map length]; [reflexivity|].
    rewrite length_app, IH. cbn [bounce_operations length]. lia. }
  rewrite Hlen. unfold bounces_from. rewrite length_map, length_seq. lia.
Qed.

(** X7: every command any method enqueues has the size the resolution
    fixes: one work-item for a counter kernel (clear, increment),
    [width_ * height_] for every other kernel, and [width_ * height_] as the
    ray bound of every intersection, which always writes the one hit buffer.
    A frame enqueues exactly [4 * max_bounces_ + 6] commands. *)
Theorem dispatch_sizes (c : call) (h : host) :
  reachable h ->
  Forall (well_sized (u32 (width_ (this h) * height_ (this h)))) (enqueued (perform c) h)
  /\ length (enqueued Integrate h) = (4 * Z.to_nat (max_bounces_ (this h)) + 6)%nat.
Proof.
  intros Hr. apply reachable_bound in Hr. split; [|apply frame_length, Hr].
  fold (num_pixels (this h)).
  destruct c; cbn [perform].
  - destruct Hr. destruct_host h. simpl_members. host_step.
    repeat constructor; cbn [well_sized]; rewrite ?program_SetArgument;
      repeat match goal with H : program _ = _ |- _ => rewrite H end; reflexivity.
  - destruct_host h. destruct p. constructor.
  - destruct_host h. constructor.
  - unfold enqueued. rewrite Integrate_schedule by apply Hr.
    apply well_sized_invoke_all, Hr.
  - apply well_sized_invoke, Hr.
Qed.

Lemma dispatch_sizes_witness :
  Forall (well_sized 16) (enqueued Integrate (sample_host 3))
  /\ length (enqueued Integrate (sample_host 3)) = 18%nat.
Proof.
  exact (dispatch_sizes CallIntegrate (sample_host 3) (sample_host_reachable 3 ltac:(lia))).
Defined.

Lemma frame_schedule_split_two (m b : Z) :
  0 <= b -> b + 1 < m ->
  frame_schedule m
  = (SGenerateRays :: flat_map bounce_calls (bounces_from 0 (Z.to_nat b)))
      ++ bounce_calls b ++ bounce_calls (b + 1)
      ++ (flat_map bounce_calls (bounces_from (b + 1 + 1) (Z.to_nat (m - b - 2)))
            ++ [SAdvanceSampleCount; SResolveRadiance]).
Proof.
  intros Hb Hm. rewrite (frame_schedule_split m b) by lia.
  replace (Z.to_nat (m - b - 1)) with (S (Z.to_nat (m - b - 2))) by lia.
  rewrite bounces_from_S. cbn [flat_map]. rewrite <- !app_assoc. reflexivity.
Qed.

(** The hit-shading dispatch that ends bounce [b]. *)
Lemma bounce_log_end (b : Z) (h : host) :
  bound (this h) ->
  exists front hit,
    enqueued (invoke_all (bounce_calls b)) h
    = front ++ [ExecuteKernel hit (num_pixels (this h))]
    /\ program hit = hit_surface_cl
    /\ arguments hit !! args.HitSurface.kBounce = Some (ArgUInt b)
    /\ arguments hit !! args.HitSurface.kOutgoingRayBuffer
       = Some (ArgMem (rays_buffer_ (outgoing_idx b)))
    /\ arguments hit !! args.HitSurface.kOutgoingRayCounterBuffer
       = Some (ArgMem (ray_counter_buffer_ (outgoing_idx b)))
    /\ arguments hit !! args.HitSurface.kOutgoingPixelIndicesBuffer
       = Some (ArgMem (pixel_indices_buffer_ (outgoing_idx b))).
Proof.
  destruct_host h. intros []. simpl_members. bounce_step.
  eexists [_; _; _]. eexists. split; [reflexivity|].
  rewrite !program_SetArgument.
  repeat split; try assumption; solve_lookup.
Qed.

Lemma outgoing_is_next_incoming (b : Z) : outgoing_idx b = incoming_idx (b + 1).
Proof.
  unfold outgoing_idx, incoming_idx, u32. rewrite !land_one_mod.
  apply Z.mod_mod_divide. exists (2 ^ 31). reflexivity.
Qed.

(** X8: the streams are handed over between bounces.  For two consecutive
    bounces [b] and [b + 1] of a frame, the hit-shading dispatch of bounce
    [b] is immediately followed by the intersection of bounce [b + 1], and
    the ray buffer and ray counter that intersection reads are the ones the
    hit-shading dispatch has bound as its outgoing stream (index
    [(b + 1) & 1]). *)
Theorem stream_handed_to_next_bounce (h : host) (b : Z) :
  reachable h -> 0 <= b -> b + 1 < max_bounces_ (this h) ->
  let n := num_pixels (this h) in
  let o := Z.land (b + 1) 1 in
  exists pre post hit,
    enqueued Integrate h
    = pre ++ [ExecuteKernel hit n;
              AccIntersectRays (rays_buffer_ o) (ray_counter_buffer_ o) n hits_buffer_]
          ++ post
    /\ program hit = hit_surface_cl
    /\ arguments hit !! args.HitSurface.kBounce = Some (ArgUInt b)
    /\ arguments hit !! args.HitSurface.kOutgoingRayBuffer = Some (ArgMem (rays_buffer_ o))
    /\ arguments hit !! args.HitSurface.kOutgoingRayCounterBuffer
       = Some (ArgMem (ray_counter_buffer_ o))
    /\ arguments hit !! args.HitSurface.kOutgoingPixelIndicesBuffer
       = Some (ArgMem (pixel_indices_buffer_ o)).
Proof.
  intros Hr Hb Hnext. apply reachable_bound in Hr. cbn zeta.
  pose proof (bound_max_bounces _ Hr) as Hmax.
  set (pre := SGenerateRays :: flat_map bounce_calls (bounces_from 0 (Z.to_nat b))).
  set (hb := state_after (invoke_all pre) h).
  set (hb' := state_after (invoke_all (bounce_calls b)) hb).
  assert (Hhb : bound (this hb)) by (apply bound_invoke_all, Hr).
  assert (Hhb' : bound (this hb')) by (apply bound_invoke_all, Hhb).
  assert (Hn : num_pixels (this hb) = num_pixels (this h))
    by apply num_pixels_invoke_all.
  assert (Hn' : num_pixels (this hb') = num_pixels (this h)).
  { unfold hb'. rewrite num_pixels_invoke_all. exact Hn. }
  destruct (bounce_log_end b hb Hhb) as (front & hit & Hend & Hp & Hb0 & Hr0 & Hc0 & Hp0).
  destruct (bounce_log (b + 1) hb' Hhb') as (miss & clear & hit' & Hnextlog & _).
  change (Z.land (b + 1) 1) with (incoming_idx (b + 1)).
  rewrite outgoing_is_next_incoming in Hr0, Hc0, Hp0.
  rewrite Hn in Hend. rewrite Hn' in Hnextlog.
  eexists (enqueued (invoke_all pre) h ++ front), _, hit.
  split; [|repeat split; assumption].
  unfold enqueued at 1. rewrite Integrate_schedule by exact Hmax.
  rewrite (frame_schedule_split_two _ b) by lia. fold pre.
  match goal with |- snd (invoke_all ?l h) = _ => fold (enqueued (invoke_all l) h) end.
  rewrite !enqueued_invoke_all_app. fold hb. rewrite Hend.
  rewrite <- !app_assoc. f_equal. f_equal. cbn [app]. f_equal.
  fold hb'. rewrite Hnextlog. cbn [app]. reflexivity.
Qed.

Lemma stream_handed_to_next_bounce_witness :
  exists pre post hit,
    enqueued Integrate (sample_host 3)
    = pre ++ [ExecuteKernel hit 16;
              AccIntersectRays (rays_buffer_ 0) (ray_counter_buffer_ 0) 16 hits_buffer_]
          ++ post
    /\ arguments hit !! args.HitSurface.kOutgoingRayBuffer = Some (ArgMem (rays_buffer_ 0)).
Proof.
  destruct (stream_handed_to_next_bounce (sample_host 3) 1
              (sample_host_reachable 3 ltac:(lia)) ltac:(lia) ltac:(cbn; lia))
    as (pre & post & hit & Hlog & _ & _ & Hrays & _).
  exists pre, post, hit. split; [exact Hlog | exact Hrays].
Defined.

(** ** Frames do not depend on earlier frames *)

(** Two kernels of one program whose arguments agree outside [slots]. *)
Definition agree_except (slots : list nat) (k k' : CLKernel) : Prop :=
  program k = program k' /\ forall j, j ∉ slots -> arguments k !! j = arguments k' !! j.

(** The slots the stage methods write before they dispatch, in the order
    they write them. *)
Definition miss_stream_slots : list nat :=
  [args.Miss.kRayBuffer; args.Miss.kPixelIndicesBuffer; args.Miss.kRayCounterBuffer].

Definition hit_stream_slots : list nat :=
  [args.HitSurface.kIncomingRayBuffer; args.HitSurface.kIncomingPixelIndicesBuffer;
   args.HitSurface.kIncomingRayCounterBuffer; args.HitSurface.kOutgoingRayBuffer;
   args.HitSurface.kOutgoingPixelIndicesBuffer; args.HitSurface.kOutgoingRayCounterBuffer;
   args.HitSurface.kBounce].

(** Two integrators a frame cannot tell apart: same resolution and bounce
    count, same generation and resolve kernels, and stage kernels that differ
    at most in the slots every stage method overwrites before dispatching. *)
Record same_frame_inputs (it it' : PathTraceIntegrator) : Prop := mk_same_frame_inputs {
  same_width : width_ it = width_ it';
  same_height : height_ it = height_ it';
  same_max_bounces : max_bounces_ it = max_bounces_ it';
  same_reset : reset_kernel_ it = reset_kernel_ it';
  same_raygen : raygen_kernel_ it = raygen_kernel_ it';
  same_resolve : resolve_kernel_ it = resolve_kernel_ it';
  same_miss : agree_except miss_stream_slots (miss_kernel_ it) (miss_kernel_ it');
  same_hit : agree_except hit_stream_slots (hit_surface_kernel_ it) (hit_surface_kernel_ it');
  same_clear : agree_except [0%nat] (clear_counter_kernel_ it) (clear_counter_kernel_ it');
  same_increment :
    agree_except [0%nat] (increment_counter_kernel_ it) (increment_counter_kernel_ it')
}.

(** The calls that bind no camera or scene data. *)
Definition keeps_bindings (c : call) : Prop :=
  match c with
  | CallSetCameraData _ | CallSetSceneData _ => False
  | _ => True
  end.

Lemma lookup_SetArgument (i j : nat) (v : arg) (k : CLKernel) :
  arguments (SetArgument i v k) !! j = if decide (i = j) then Some v else arguments k !! j.
Proof.
  destruct (decide (i = j)) as [->|Hne].
  - apply lookup_SetArgument_eq.
  - apply lookup_SetArgument_ne, Hne.
Qed.

Lemma agree_except_refl (slots : list nat) (k : CLKernel) : agree_except slots k k.
Proof. split; reflexivity. Qed.

Lemma agree_except_trans (slots : list nat) (k1 k2 k3 : CLKernel) :
  agree_except slots k1 k2 -> agree_except slots k2 k3 -> agree_except slots k1 k3.
Proof.
  intros [Hp Ha] [Hp' Ha']. split; [congruence|].
  intros j Hj. rewrite Ha, Ha' by exact Hj. reflexivity.
Qed.

Lemma agree_except_nil (k k' : CLKernel) : agree_except [] k k' -> k = k'.
Proof.
  destruct k as [pk ak], k' as [pk' ak']. intros [Hp Ha]. cbn in Hp, Ha. subst pk'.
  f_equal. apply map_eq. intros j. apply Ha. apply not_elem_of_nil.
Qed.

Lemma agree_except_SetArgument (i : nat) (v : arg) (slots : list nat) (k k' : CLKernel) :
  agree_except (i :: slots) k k' ->
  agree_except slots (SetArgument i v k) (SetArgument i v k').
Proof.
  intros [Hp Ha]. split; [exact Hp|].
  intros j Hj. rewrite !lookup_SetArgument.
  destruct (decide (i = j)) as [_|Hne]; [reflexivity|].
  apply Ha. intros Hin. apply elem_of_cons in Hin as [Heq|Hin]; [congruence|tauto].
Qed.

Lemma agree_except_written (i : nat) (v : arg) (slots : list nat) (k : CLKernel) :
  i ∈ slots -> agree_except slots k (SetArgument i v k).
Proof.
  intros Hi. split; [reflexivity|].
  intros j Hj. rewrite lookup_SetArgument.
  destruct (decide (i = j)) as [->|_]; [tauto|reflexivity].
Qed.

Lemma same_frame_inputs_refl (it : PathTraceIntegrator) : same_frame_inputs it it.
Proof. constructor; try reflexivity; apply agree_except_refl. Qed.

Lemma same_frame_inputs_trans (it1 it2 it3 : PathTraceIntegrator) :
  same_frame_inputs it1 it2 -> same_frame_inputs it2 it3 -> same_frame_inputs it1 it3.
Proof.
  intros [] []. constructor; try congruence; eapply agree_except_trans; eassumption.
Qed.

Ltac solve_written :=
  repeat (eapply agree_except_trans;
          [ | apply agree_except_written; unfold miss_stream_slots, hit_stream_slots;
              set_solver ]);
  apply agree_except_refl.

(** A stage method writes only stream slots. *)
Lemma same_frame_inputs_invoke (s : stage_call) (h : host) :
  same_frame_inputs (this h) (this (state_after (invoke s) h)).
Proof.
  destruct_host h.
  destruct s; host_step; constructor; simpl_members; try reflexivity;
    try apply agree_except_refl; solve_written.
Qed.

Lemma same_frame_inputs_invoke_all (ss : list stage_call) (h : host) :
  same_frame_inputs (this h) (this (state_after (invoke_all ss) h)).
Proof.
  revert h. induction ss as [|s ss IH]; intros h; cbn [invoke_all].
  - apply same_frame_inputs_refl.
  - rewrite state_after_bind.
    eapply same_frame_inputs_trans; [apply same_frame_inputs_invoke | apply IH].
Qed.

Ltac solve_agree :=
  first [ apply agree_except_nil; repeat apply agree_except_SetArgument; assumption
        | assumption ].

(** Two integrators with the same frame inputs enqueue the same commands for
    every stage method, and stay that way. *)
Lemma invoke_same_inputs (s : stage_call) (h h' : host) :
  same_frame_inputs (this h) (this h') ->
  enqueued (invoke s) h = enqueued (invoke s) h'
  /\ same_frame_inputs (this (state_after (invoke s) h)) (this (state_after (invoke s) h')).
Proof.
  destruct h as [it p], h' as [it' p'].
  destruct it as [w hg mb k_reset k_raygen k_miss k_hit k_clear k_incr k_resolve].
  destruct it' as [w' hg' mb' k_reset' k_raygen' k_miss' k_hit' k_clear' k_incr' k_resolve'].
  intros []. simpl_members. subst w' hg' mb' k_reset' k_raygen' k_resolve'.
  unfold miss_stream_slots, hit_stream_slots in *.
  destruct s; host_step; (split; [|constructor; simpl_members; try reflexivity;
                                    try assumption]);
    try reflexivity;
    try (f_equal; f_equal; solve_agree);
    try (unfold miss_stream_slots, hit_stream_slots;
         match goal with
         | |- agree_except _ ?k ?k' =>
             replace k' with k by solve_agree; apply agree_except_refl
         end).
Qed.

Lemma invoke_all_same_inputs (ss : list stage_call) : forall h h' : host,
  same_frame_inputs (this h) (this h') ->
  enqueued (invoke_all ss) h = enqueued (invoke_all ss) h'
  /\ same_frame_inputs (this (state_after (invoke_all ss) h))
       (this (state_after (invoke_all ss) h')).
Proof.
  induction ss as [|s ss IH]; intros h h' Hsame; cbn [invoke_all].
  - split; [reflexivity | exact Hsame].
  - destruct (invoke_same_inputs s h h' Hsame) as [Hlog Hnext].
    destruct (IH _ _ Hnext) as [Hlogs Hlast].
    rewrite !enqueued_bind, !state_after_bind, Hlog, Hlogs. split; [reflexivity|exact Hlast].
Qed.

Lemma Integrate_same_inputs (h h' : host) :
  0 <= max_bounces_ (this h) < 2 ^ 32 ->
  same_frame_inputs (this h) (this h') ->
  enqueued Integrate h = enqueued Integrate h'
  /\ same_frame_inputs (this (state_after Integrate h)) (this (state_after Integrate h')).
Proof.
  intros Hmax Hsame.
  assert (Hmax' : 0 <= max_bounces_ (this h') < 2 ^ 32)
    by (rewrite <- (same_max_bounces _ _ Hsame); exact Hmax).
  unfold enqueued, state_after.
  rewrite (Integrate_schedule h Hmax), (Integrate_schedule h' Hmax').
  rewrite <- (same_max_bounces _ _ Hsame).
  apply invoke_all_same_inputs, Hsame.
Qed.

(** A call that binds no camera or scene data leaves the frame inputs. *)
Lemma same_frame_inputs_perform (c : call) (h : host) :
  0 <= max_bounces_ (this h) < 2 ^ 32 -> keeps_bindings c ->
  same_frame_inputs (this h) (this (state_after (perform c) h)).
Proof.
  intros Hmax Hc. destruct c; cbn [keeps_bindings] in Hc; try contradiction;
    cbn [perform].
  - clear Hmax. destruct_host h. host_step. constructor; simpl_members; try reflexivity;
      try apply agree_except_refl.
    apply agree_except_written. set_solver.
  - unfold state_after. rewrite Integrate_schedule by exact Hmax.
    apply same_frame_inputs_invoke_all.
  - apply same_frame_inputs_invoke.
Qed.

Lemma same_frame_inputs_perform_all (cs : list call) : forall h : host,
  0 <= max_bounces_ (this h) < 2 ^ 32 -> Forall keeps_bindings cs ->
  same_frame_inputs (this h) (this (state_after (perform_all cs) h)).
Proof.
  induction cs as [|c cs IH]; intros h Hmax Hcs; cbn [perform_all].
  - apply same_frame_inputs_refl.
  - inversion Hcs as [|? ? Hc Hcs']; subst.
    rewrite state_after_bind.
    pose proof (same_frame_inputs_perform c h Hmax Hc) as Hstep.
    eapply same_frame_inputs_trans; [exact Hstep|].
    apply IH; [|exact Hcs'].
    rewrite <- (same_max_bounces _ _ Hstep). exact Hmax.
Qed.

(** X9: the commands of a frame do not depend on what ran before, as long
    as no camera or scene data was bound in between: after any sequence of
    frames, resets and stage calls, [Integrate()] enqueues the very commands,
    kernel arguments and sizes included, that it would have enqueued before
    them.  In particular a frame run without a new [SetCameraData] reuses the
    previous camera and the previous seed. *)
Theorem frame_independent_of_history (cs : list call) (h : host) :
  0 <= max_bounces_ (this h) < 2 ^ 32 ->
  Forall keeps_bindings cs ->
  enqueued Integrate (state_after (perform_all cs) h) = enqueued Integrate h.
Proof.
  intros Hmax Hcs. symmetry.
  apply Integrate_same_inputs; [exact Hmax|].
  apply same_frame_inputs_perform_all; assumption.
Qed.

Lemma frame_independent_of_history_witness :
  enqueued Integrate
    (state_after (perform_all [CallIntegrate; CallReset;
                               CallStage (SShadeSurfaceHits 7); CallIntegrate])
       (sample_host 3))
  = enqueued Integrate (sample_host 3).
Proof.
  apply frame_independent_of_history.
  - cbn. lia.
  - repeat constructor.
Defined.

Lemma frames_repeat_from (h : host) (n : nat) : forall h' : host,
  0 <= max_bounces_ (this h) < 2 ^ 32 ->
  same_frame_inputs (this h) (this h') ->
  enqueued (perform_all (repeat CallIntegrate n)) h'
  = concat (repeat (enqueued Integrate h) n).
Proof.
  induction n as [|n IH]; intros h' Hmax Hsame; cbn [repeat perform_all concat].
  - reflexivity.
  - rewrite enqueued_bind. cbn [perform].
    destruct (Integrate_same_inputs h h' Hmax Hsame) as [Hlog _].
    rewrite <- Hlog. f_equal. apply IH; [exact Hmax|].
    eapply same_frame_inputs_trans; [exact Hsame|].
    apply (same_frame_inputs_perform CallIntegrate h'); [|exact I].
    rewrite <- (same_max_bounces _ _ Hsame). exact Hmax.
Qed.

(** X10: [n] frames in a row enqueue [n] copies of the command stream of
    one frame. *)
Theorem frames_repeat (n : nat) (h : host) :
  0 <= max_bounces_ (this h) < 2 ^ 32 ->
  enqueued (perform_all (repeat CallIntegrate n)) h
  = concat (repeat (enqueued Integrate h) n).
Proof.
  intros Hmax. apply frames_repeat_from; [exact Hmax | apply same_frame_inputs_refl].
Qed.

Lemma frames_repeat_witness :
  enqueued (perform_all (repeat CallIntegrate 3)) (sample_host 2)
  = enqueued Integrate (sample_host 2) ++ enqueued Integrate (sample_host 2)
      ++ enqueued Integrate (sample_host 2).
Proof.
  rewrite (frames_repeat 3 (sample_host 2)) by (cbn; lia).
  cbn [repeat concat]. rewrite app_nil_r. reflexivity.
Defined.

(** ** The loop budget and the shared clear kernel *)

(** X11: the bounce loop ends by its own test after [max_bounces_]
    iterations: with any iteration budget of at least [max_bounces_], the
    frame is the same, host state and commands. *)
Theorem bounce_loop_ends_by_test (fuel : nat) (h : host) :
  0 <= max_bounces_ (this h) < 2 ^ 32 ->
  (Z.to_nat (max_bounces_ (this h)) <= fuel)%nat ->
  Integrate_with fuel h = Integrate h.
Proof.
  intros Hmax Hfuel.
  replace fuel
    with (Z.to_nat (max_bounces_ (this h)) + (fuel - Z.to_nat (max_bounces_ (this h))))%nat
    by lia.
  apply Integrate_total, Hmax.
Qed.

Lemma bounce_loop_ends_by_test_witness :
  Integrate_with 40 (sample_host 3) = Integrate (sample_host 3).
Proof.
  apply bounce_loop_ends_by_test; cbn; lia.
Defined.

Lemma clear_kernel_after_bounce (b : Z) (h : host) :
  clear_counter_kernel_ (this (state_after (invoke_all (bounce_calls b)) h))
  = SetArgument 0 (ArgMem (ray_counter_buffer_ (outgoing_idx b)))
      (clear_counter_kernel_ (this h)).
Proof. destruct_host h. reflexivity. Qed.

Lemma clear_kernel_after_closing (h : host) :
  clear_counter_kernel_
    (this (state_after (invoke_all [SAdvanceSampleCount; SResolveRadiance]) h))
  = clear_counter_kernel_ (this h).
Proof. destruct_host h. reflexivity. Qed.

(** X12: the clear-counter kernel is shared.  After a frame with at least one
    bounce it is left bound to the ray counter of index [max_bounces_ & 1],
    the outgoing counter of the last bounce.  [Reset()] binds it again before
    dispatching it, so a reset after a frame still clears the sample counter,
    and then dispatches the reset kernel the frame has not touched. *)
Theorem clear_kernel_rebound_by_Reset (h : host) :
  reachable h -> 1 <= max_bounces_ (this h) ->
  let h1 := state_after Integrate h in
  arguments (clear_counter_kernel_ (this h1)) !! 0%nat
    = Some (ArgMem (ray_counter_buffer_ (Z.land (max_bounces_ (this h)) 1)))
  /\ exists clear,
       enqueued Reset h1
       = [ExecuteKernel clear 1; ExecuteKernel (reset_kernel_ (this h)) (num_pixels (this h))]
       /\ program clear = clear_counter_cl
       /\ arguments clear !! 0%nat = Some (ArgMem sample_counter_buffer_).
Proof.
  intros Hr Hone. apply reachable_bound in Hr. cbn zeta.
  pose proof (bound_max_bounces _ Hr) as Hmax.
  set (m := max_bounces_ (this h)) in *.
  split.
  - unfold state_after. rewrite Integrate_schedule by exact Hmax. fold m.
    rewrite (frame_schedule_split m (m - 1)) by lia.
    replace (m - (m - 1) - 1) with 0 by lia.
    change (flat_map bounce_calls (bounces_from (m - 1 + 1) (Z.to_nat 0)))
      with (@nil stage_call).
    rewrite app_nil_l.
    match goal with
    | |- context [snd (fst (invoke_all ?l h))] => fold (state_after (invoke_all l) h)
    end.
    rewrite !state_after_invoke_all_app.
    rewrite clear_kernel_after_closing, clear_kernel_after_bounce.
    rewrite lookup_SetArgument_eq, outgoing_is_next_incoming.
    unfold incoming_idx. replace (m - 1 + 1) with m by lia. reflexivity.
  - pose proof (same_frame_inputs_perform CallIntegrate h Hmax I) as Hsame.
    cbn [perform] in Hsame.
    pose proof (bound_perform CallIntegrate h Hr) as Hb1. cbn [perform] in Hb1.
    unfold enqueued. rewrite Reset_run. cbn [snd].
    unfold num_pixels.
    rewrite <- (same_reset _ _ Hsame), <- (same_width _ _ Hsame), <- (same_height _ _ Hsame).
    eexists. split; [reflexivity|]. split.
    + rewrite program_SetArgument. apply Hb1.
    + apply lookup_SetArgument_eq.
Qed.

Lemma clear_kernel_rebound_by_Reset_witness :
  arguments (clear_counter_kernel_ (this (state_after Integrate (sample_host 3)))) !! 0%nat
  = Some (ArgMem (ray_counter_buffer_ 1)).
Proof.
  exact (proj1 (clear_kernel_rebound_by_Reset (sample_host 3)
                  (sample_host_reachable 3 ltac:(lia)) ltac:(cbn; lia))).
Defined.

(** ** Camera and scene data reach the frames *)

Lemma frame_first_command (h : host) :
  0 <= max_bounces_ (this h) < 2 ^ 32 ->
  exists rest,
    enqueued Integrate h
    = ExecuteKernel (raygen_kernel_ (this h)) (num_pixels (this h)) :: rest.
Proof.
  intros Hmax. unfold enqueued at 1. rewrite Integrate_schedule by exact Hmax.
  change (frame_schedule (max_bounces_ (this h)))
    with ([SGenerateRays]
            ++ (flat_map bounce_calls (bounces_from 0 (Z.to_nat (max_bounces_ (this h))))
                  ++ [SAdvanceSampleCount; SResolveRadiance])).
  eexists.
  match goal with |- snd (invoke_all ?l h) = _ => fold (enqueued (invoke_all l) h) end.
  rewrite enqueued_invoke_all_app, enqueued_generation. cbn [app].
  reflexivity.
Qed.

(** X13: camera data takes effect on the frames that follow.  After
    [SetCameraData(camera)], every frame, until camera or scene data is bound
    again, starts with the dispatch of the ray-generation kernel over
    [width_ * height_] work-items carrying the camera position, the front
    vector, the recomputed up vector, the frame count, the seed drawn by that
    call, the aperture and the focus distance. *)
Theorem camera_reaches_generation (camera : Camera) (cs : list call) (h : host) :
  reachable h -> Forall keeps_bindings cs ->
  let h' := state_after (SetCameraData camera) h in
  exists k rest,
    enqueued Integrate (state_after (perform_all cs) h')
    = ExecuteKernel k (num_pixels (this h)) :: rest
    /\ program k = raygeneration_cl
    /\ arguments k !! args.Raygen.kCameraPos = Some (ArgFloat3 (GetOrigin camera))
    /\ arguments k !! args.Raygen.kCameraFront = Some (ArgFloat3 (GetFrontVector camera))
    /\ arguments k !! args.Raygen.kCameraUp = Some (ArgFloat3 (camera_up camera))
    /\ arguments k !! args.Raygen.kFrameCount = Some (ArgUInt (GetFrameCount camera))
    /\ arguments k !! args.Raygen.kFrameSeed
       = Some (ArgUInt (u32 (rand_values (libc h) (rand_calls (libc h)))))
    /\ arguments k !! args.Raygen.kAperture = Some (ArgFloat (GetAperture camera))
    /\ arguments k !! args.Raygen.kFocusDistance
       = Some (ArgFloat (GetFocusDistance camera)).
Proof.
  intros Hr Hcs. cbn zeta.
  set (h' := state_after (SetCameraData camera) h).
  assert (Hb' : bound (this h'))
    by (apply (bound_perform (CallSetCameraData camera)), reachable_bound, Hr).
  pose proof (bound_max_bounces _ Hb') as Hmax.
  destruct (Integrate_same_inputs h' (state_after (perform_all cs) h') Hmax
              (same_frame_inputs_perform_all cs h' Hmax Hcs)) as [Hlog _].
  rewrite <- Hlog.
  destruct (frame_first_command h' Hmax) as (rest & Hfirst).
  exists (raygen_kernel_ (this h')), rest.
  split.
  { rewrite Hfirst. reflexivity. }
  split; [apply Hb'|].
  subst h'. clear. destruct_host h. destruct p as [values calls]. host_step.
  unfold camera_up, camera_right.
  repeat split; solve_lookup.
Qed.

Lemma camera_reaches_generation_witness :
  exists k rest,
    enqueued Integrate
      (state_after (perform_all [CallIntegrate; CallReset])
         (state_after (SetCameraData long_front_camera) (sample_host 2)))
    = ExecuteKernel k 16 :: rest
    /\ arguments k !! args.Raygen.kFrameSeed = Some (ArgUInt 41).
Proof.
  destruct (camera_reaches_generation long_front_camera [CallIntegrate; CallReset]
              (sample_host 2) (sample_host_reachable 2 ltac:(lia))
              ltac:(repeat constructor))
    as (k & rest & Hlog & _ & _ & _ & _ & _ & Hseed & _).
  exists k, rest. split; [exact Hlog | exact Hseed].
Defined.

(** The scene handles as the hit-surface and miss kernels hold them. *)
Definition scene_bound (scene : Scene) (it : PathTraceIntegrator) : Prop :=
  arguments (hit_surface_kernel_ it) !! args.HitSurface.kTrianglesBuffer
    = Some (ArgMem (scene_mem (GetTriangleBuffer scene)))
  /\ arguments (hit_surface_kernel_ it) !! args.HitSurface.kMaterialsBuffer
     = Some (ArgMem (scene_mem (GetMaterialBuffer scene)))
  /\ arguments (miss_kernel_ it) !! args.Miss.kIblTextureBuffer
     = Some (ArgMem (scene_mem (GetEnvTextureBuffer scene))).

(** A dispatch of a shading kernel that carries the handles of [scene]. *)
Definition shades_scene (scene : Scene) (c : command) : Prop :=
  match c with
  | ExecuteKernel k _ =>
      (program k = hit_surface_cl ->
       arguments k !! args.HitSurface.kTrianglesBuffer
         = Some (ArgMem (scene_mem (GetTriangleBuffer scene)))
       /\ arguments k !! args.HitSurface.kMaterialsBuffer
          = Some (ArgMem (scene_mem (GetMaterialBuffer scene))))
      /\ (program k = miss_cl ->
          arguments k !! args.Miss.kIblTextureBuffer
            = Some (ArgMem (scene_mem (GetEnvTextureBuffer scene))))
  | _ => True
  end.

(** The calls other than [SetSceneData]. *)
Definition keeps_scene (c : call) : Prop :=
  match c with
  | CallSetSceneData _ => False
  | _ => True
  end.

Ltac solve_shades :=
  cbn [shades_scene];
  first [ exact I
        | split; intros Hp; rewrite ?program_SetArgument in Hp;
          first [ congruence | repeat split; solve_lookup ] ].

Lemma scene_invoke (scene : Scene) (s : stage_call) (h : host) :
  bound (this h) -> scene_bound scene (this h) ->
  Forall (shades_scene scene) (enqueued (invoke s) h)
  /\ scene_bound scene (this (state_after (invoke s) h)).
Proof.
  unfold scene_bound. destruct_host h. intros [] (Ht & Hm & He). simpl_members.
  destruct s; host_step; simpl_members;
    (split; [ repeat (apply List.Forall_cons; [solve_shades|]); apply List.Forall_nil
            | repeat split; solve_lookup ]).
Qed.

Lemma scene_invoke_all (scene : Scene) (ss : list stage_call) : forall h : host,
  bound (this h) -> scene_bound scene (this h) ->
  Forall (shades_scene scene) (enqueued (invoke_all ss) h)
  /\ scene_bound scene (this (state_after (invoke_all ss) h)).
Proof.
  induction ss as [|s ss IH]; intros h Hb Hs; cbn [invoke_all].
  - split; [constructor | exact Hs].
  - destruct (scene_invoke scene s h Hb Hs) as [Hlog Hnext].
    destruct (IH _ (bound_invoke s h Hb) Hnext) as [Hlogs Hlast].
    rewrite enqueued_bind, state_after_bind. split; [|exact Hlast].
    apply Forall_app. split; assumption.
Qed.

Lemma scene_perform (scene : Scene) (c : call) (h : host) :
  bound (this h) -> scene_bound scene (this h) -> keeps_scene c ->
  scene_bound scene (this (state_after (perform c) h)).
Proof.
  intros Hb Hs Hc. destruct c; cbn [keeps_scene] in Hc; try contradiction; cbn [perform].
  - destruct_host h. exact Hs.
  - destruct_host h. destruct p. exact Hs.
  - unfold state_after. rewrite Integrate_schedule by apply Hb.
    apply scene_invoke_all; assumption.
  - apply scene_invoke; assumption.
Qed.

Lemma scene_perform_all (scene : Scene) (cs : list call) : forall h : host,
  bound (this h) -> scene_bound scene (this h) -> Forall keeps_scene cs ->
  bound (this (state_after (perform_all cs) h))
  /\ scene_bound scene (this (state_after (perform_all cs) h)).
Proof.
  induction cs as [|c cs IH]; intros h Hb Hs Hcs; cbn [perform_all].
  - split; assumption.
  - inversion Hcs as [|? ? Hc Hcs']; subst. rewrite state_after_bind.
    apply IH; [apply bound_perform, Hb | apply scene_perform; assumption | exact Hcs'].
Qed.

(** X14: scene data stays bound until it is bound again.  After
    [SetSceneData(scene)], whatever is called next except [SetSceneData]
    (frames, resets, camera updates, single stages), every hit-surface
    dispatch of a frame carries the scene's triangle and material buffers and
    every miss dispatch its environment texture. *)
Theorem scene_reaches_shading (scene : Scene) (cs : list call) (h : host) :
  reachable h -> Forall keeps_scene cs ->
  let h' := state_after (perform_all cs) (state_after (SetSceneData scene) h) in
  Forall (shades_scene scene) (enqueued Integrate h')
  /\ scene_bound scene (this (state_after Integrate h')).
Proof.
  intros Hr Hcs. cbn zeta.
  assert (Hb0 : bound (this (state_after (SetSceneData scene) h)))
    by (apply (bound_perform (CallSetSceneData scene)), reachable_bound, Hr).
  assert (Hs0 : scene_bound scene (this (state_after (SetSceneData scene) h))).
  { clear. destruct_host h. host_step. unfold scene_bound. simpl_members.
    repeat split; solve_lookup. }
  destruct (scene_perform_all scene cs _ Hb0 Hs0 Hcs) as [Hb Hs].
  set (h' := state_after (perform_all cs) (state_after (SetSceneData scene) h)) in *.
  pose proof (scene_invoke_all scene (frame_schedule (max_bounces_ (this h'))) h' Hb Hs)
    as Hframe.
  unfold enqueued, state_after in Hframe.
  rewrite <- Integrate_schedule in Hframe by apply Hb. exact Hframe.
Qed.

Lemma scene_reaches_shading_witness :
  Forall (shades_scene (mk_scene 11 12 13))
    (enqueued Integrate
       (state_after (perform_all [CallIntegrate; CallSetCameraData long_front_camera])
          (state_after (SetSceneData (mk_scene 11 12 13)) (sample_host 2)))).
Proof.
  exact (proj1 (scene_reaches_shading (mk_scene 11 12 13)
                  [CallIntegrate; CallSetCameraData long_front_camera]
                  (sample_host 2) (sample_host_reachable 2 ltac:(lia))
                  ltac:(repeat constructor))).
Defined.

(** ** Random draws and repeated set-up calls *)

Definition is_camera_call (c : call) : bool :=
  match c with
  | CallSetCameraData _ => true
  | _ => false
  end.

Lemma libc_invoke (s : stage_call) (h : host) : libc (state_after (invoke s) h) = libc h.
Proof. destruct_host h. destruct s; reflexivity. Qed.

Lemma libc_invoke_all (ss : list stage_call) (h : host) :
  libc (state_after (invoke_all ss) h) = libc h.
Proof.
  revert h. induction ss as [|s ss IH]; intros h; cbn [invoke_all].
  - reflexivity.
  - rewrite state_after_bind, IH. apply libc_invoke.
Qed.

Lemma libc_bounce_loop (n : nat) : forall (b : Z) (h : host),
  libc (state_after (bounce_loop n b) h) = libc h.
Proof.
  induction n as [|n IH]; intros b h.
  - reflexivity.
  - unfold state_after. rewrite bounce_loop_S.
    destruct (b <? max_bounces_ (this h)); [|reflexivity].
    fold (state_after (bind (bounce_body b) (fun _ => bounce_loop n (u32 (b + 1)))) h).
    rewrite state_after_bind, IH.
    unfold state_after. rewrite <- bounce_body_calls.
    apply (libc_invoke_all (bounce_calls b) h).
Qed.

Lemma libc_Integrate (h : host) : libc (state_after Integrate h) = libc h.
Proof.
  unfold state_after. rewrite Integrate_unfold. unfold Integrate_with.
  fold (state_after (bind GenerateRays (fun _ =>
          bind (bounce_loop (Z.to_nat (max_bounces_ (this h))) 0) (fun _ =>
          bind AdvanceSampleCount (fun _ => ResolveRadiance)))) h).
  rewrite !state_after_bind.
  rewrite (libc_invoke SResolveRadiance), (libc_invoke SAdvanceSampleCount),
    libc_bounce_loop.
  apply (libc_invoke SGenerateRays).
Qed.

Lemma libc_perform (c : call) (h : host) :
  libc (state_after (perform c) h)
  = if is_camera_call c
    then mk_process (rand_values (libc h)) (S (rand_calls (libc h)))
    else libc h.
Proof.
  destruct c; cbn [perform is_camera_call].
  - destruct_host h. reflexivity.
  - destruct_host h. destruct p. reflexivity.
  - destruct_host h. reflexivity.
  - apply libc_Integrate.
  - apply libc_invoke.
Qed.

(** X15: only [SetCameraData] draws from [rand()], one value per call.  After
    any sequence of calls the generator has advanced by the number of
    [SetCameraData] calls in it, whatever the bounce count: construction
    apart, no other method (frames, resets, scene binding, stages) consumes
    randomness, so a frame never reseeds itself. *)
Theorem rand_drawn_by_SetCameraData_only (cs : list call) (h : host) :
  rand_calls (libc (state_after (perform_all cs) h))
    = (rand_calls (libc h) + length (filter (fun c => is_camera_call c = true) cs))%nat
  /\ rand_values (libc (state_after (perform_all cs) h)) = rand_values (libc h).
Proof.
  revert h. induction cs as [|c cs IH]; intros h; cbn [perform_all].
  - cbn. split; [lia|reflexivity].
  - rewrite state_after_bind. destruct (IH (state_after (perform c) h)) as [Hc Hv].
    rewrite Hc, Hv, libc_perform. rewrite filter_cons.
    destruct (is_camera_call c) eqn:Hcam.
    + rewrite decide_True by reflexivity. cbn [rand_calls rand_values length].
      split; [lia|reflexivity].
    + rewrite decide_False by discriminate. split; reflexivity.
Qed.

Lemma agree_except_sym (slots : list nat) (k k' : CLKernel) :
  agree_except slots k k' -> agree_except slots k' k.
Proof.
  intros [Hp Ha]. split; [congruence|]. intros j Hj. symmetry. apply Ha, Hj.
Qed.

(** X16: [SetCameraData] leaves nothing of an earlier camera: binding
    [first] and then [second] leaves the host in the state binding [second]
    alone would have left, had one random value been drawn before; all seven
    camera slots are overwritten. *)
Theorem SetCameraData_overrides (first second : Camera) (h : host) :
  state_after (SetCameraData second) (state_after (SetCameraData first) h)
  = state_after (SetCameraData second)
      (mk_host (this h) (mk_process (rand_values (libc h)) (S (rand_calls (libc h))))).
Proof.
  destruct_host h. destruct p as [values calls]. host_step.
  do 2 f_equal.
  apply agree_except_nil. repeat apply agree_except_SetArgument.
  apply agree_except_sym.
  repeat (eapply agree_except_trans; [ | apply agree_except_written; set_solver ]).
  apply agree_except_refl.
Qed.

(** X17: the set-up calls are independent of one another: binding the camera
    and the scene in either order leaves the same host state, and a [Reset]
    enqueues the same two dispatches and leaves the same state whether it
    runs before or after them. *)
Theorem setup_calls_commute (camera : Camera) (scene : Scene) (h : host) :
  state_after (SetSceneData scene) (state_after (SetCameraData camera) h)
    = state_after (SetCameraData camera) (state_after (SetSceneData scene) h)
  /\ state_after Reset (state_after (SetCameraData camera) h)
     = state_after (SetCameraData camera) (state_after Reset h)
  /\ state_after Reset (state_after (SetSceneData scene) h)
     = state_after (SetSceneData scene) (state_after Reset h)
  /\ enqueued Reset (state_after (SetSceneData scene) (state_after (SetCameraData camera) h))
     = enqueued Reset h.
Proof.
  destruct_host h. destruct p as [values calls]. repeat split.
Qed.

(** ** What a frame leaves alone, and the 32-bit pixel count *)

(** X18: no frame, reset or stage call changes the resolution, the bounce
    count, the reset, ray-generation or resolve kernel, the program of any
    kernel, or any argument of the miss, hit-surface, clear and increment
    kernels other than the stream slots (and slot 0 of the two counter
    kernels) that every stage method rebinds before it dispatches. *)
Theorem frame_rebinds_stream_slots_only (c : call) (h : host) :
  0 <= max_bounces_ (this h) < 2 ^ 32 -> keeps_bindings c ->
  let it := this h in
  let it' := this (state_after (perform c) h) in
  width_ it' = width_ it /\ height_ it' = height_ it /\ max_bounces_ it' = max_bounces_ it
  /\ reset_kernel_ it' = reset_kernel_ it
  /\ raygen_kernel_ it' = raygen_kernel_ it
  /\ resolve_kernel_ it' = resolve_kernel_ it
  /\ agree_except miss_stream_slots (miss_kernel_ it) (miss_kernel_ it')
  /\ agree_except hit_stream_slots (hit_surface_kernel_ it) (hit_surface_kernel_ it')
  /\ agree_except [0%nat] (clear_counter_kernel_ it) (clear_counter_kernel_ it')
  /\ agree_except [0%nat] (increment_counter_kernel_ it) (increment_counter_kernel_ it').
Proof.
  intros Hmax Hc. cbn zeta.
  destruct (same_frame_inputs_perform c h Hmax Hc).
  repeat split; solve [ congruence | assumption
                      | match goal with H : agree_except _ _ _ |- _ => apply H end ].
Qed.

Lemma frame_rebinds_stream_slots_only_witness :
  raygen_kernel_ (this (state_after (perform CallIntegrate) (sample_host 3)))
  = raygen_kernel_ (this (sample_host 3)).
Proof.
  destruct (frame_rebinds_stream_slots_only CallIntegrate (sample_host 3)
              ltac:(cbn; lia) I) as (_ & _ & _ & _ & H & _).
  exact H.
Defined.

(** X19: the pixel count is a 32-bit product.  When [width * height] does
    not fit 32 bits, every frame starts with a ray-generation dispatch over
    [(width * height) mod 2^32] work-items, fewer than there are pixels. *)
Theorem pixel_count_wraps (h : host) :
  reachable h -> 2 ^ 32 <= width_ (this h) * height_ (this h) ->
  exists rest,
    enqueued Integrate h
    = ExecuteKernel (raygen_kernel_ (this h))
        ((width_ (this h) * height_ (this h)) mod 2 ^ 32) :: rest
    /\ (width_ (this h) * height_ (this h)) mod 2 ^ 32
       < width_ (this h) * height_ (this h).
Proof.
  intros Hr Hbig. apply reachable_bound in Hr.
  destruct (frame_first_command h (bound_max_bounces _ Hr)) as (rest & Hfirst).
  exists rest. split; [exact Hfirst|].
  pose proof (Z.mod_pos_bound (width_ (this h) * height_ (this h)) (2 ^ 32) ltac:(lia)).
  lia.
Qed.

(** A 65536 x 65537 integrator. *)
Definition wide_host : host :=
  built (PathTraceIntegrator_new sample_platform 65536 65537 2 sample_process).

Lemma pixel_count_wraps_witness :
  exists rest,
    enqueued Integrate wide_host
    = ExecuteKernel (raygen_kernel_ (this wide_host)) 65536 :: rest.
Proof.
  assert (Hr : reachable wide_host).
  { eapply (reachable_new sample_platform 65536 65537 2 sample_process); [lia|].
    reflexivity. }
  destruct (pixel_count_wraps wide_host Hr ltac:(cbn; lia)) as (rest & Hlog & _).
  exists rest. exact Hlog.
Defined.
